(** * Answer resolution of the chat UI: citations, markers and charts

    A shallow embedding of [frontend/src/components/Answer/AnswerParser.tsx]
    (both revisions of the Prompt Flow fallback: the flat top-level one and
    the structured choices/messages one) and of [parsePlotFromMessage] as
    listed in the image data-flow documentation of [Chat.tsx].

    The TypeScript code is dynamically typed where it matters (payloads are
    decoded JSON, accessed through [any]), so values are modelled as an
    untyped tree and every operation that can raise a [TypeError] or a
    [SyntaxError] returns in an error monad. *)

From Stdlib Require Import ZArith List String Ascii Bool Arith Lia.
From Stdlib Require Import DecimalString.
Import ListNotations.
Open Scope string_scope.

(** ** Outcome of an evaluation: a value, or an exception that escapes. *)

Inductive result (A : Type) : Type :=
| Ok (a : A)
| Throw.
Arguments Ok {A} a.
Arguments Throw {A}.

Definition bind {A B : Type} (r : result A) (k : A -> result B) : result B :=
  match r with
  | Ok a => k a
  | Throw => Throw
  end.

Notation "x <- r ;; k" := (bind r (fun x => k))
  (at level 61, r at next level, right associativity).

Fixpoint mapM {A B : Type} (f : A -> result B) (l : list A) : result (list B) :=
  match l with
  | [] => Ok []
  | a :: l' => b <- f a ;; bs <- mapM f l' ;; Ok (b :: bs)
  end.

Fixpoint foldM {S A : Type} (f : S -> A -> result S) (l : list A) (s : S)
  : result S :=
  match l with
  | [] => Ok s
  | a :: l' => s' <- f s a ;; foldM f l' s'
  end.

(** A loop that appends what each pass yields to one list; an exception in
    a pass ends the loop. *)
Fixpoint concatM {A B : Type} (f : A -> result (list B)) (l : list A)
  : result (list B) :=
  match l with
  | [] => Ok []
  | a :: l' => bs <- f a ;; rest <- concatM f l' ;; Ok (bs ++ rest)%list
  end.

(** ** JavaScript values

    Decoded JSON: numbers are restricted to the safe integers (the code
    never does arithmetic on payload numbers, it only prints and compares
    them; see [Js.safeInteger] for what is stated of their text).
    An array carries, besides its elements, the named own properties that an
    assignment such as [citation.id = ...] can add to it; arrays coming out
    of [JSON.parse] have none. Objects keep their fields in insertion
    order. *)

#[warnings="-register-all"]
Inductive JsVal : Type :=
| JUndefined
| JNull
| JBool (b : bool)
| JNum (n : Z)
| JStr (s : string)
| JArr (elems : list JsVal) (props : list (string * JsVal))
| JObj (fields : list (string * JsVal)).

Module Js.

(** The double-quote character and the decimal printers. *)
Definition dquote : string := String (ascii_of_nat 34) EmptyString.

Definition natToString (n : nat) : string :=
  NilZero.string_of_uint (Nat.to_uint n).

(** A JavaScript number is a double. [JNum n] stands for the number [n]
    for the integers that [Number.isSafeInteger] accepts, which every
    double holds exactly; fractions and larger magnitudes are outside the
    model. *)
Definition safeInteger (z : Z) : bool :=
  (Z.abs z <=? 9007199254740991)%Z.

(** The text of a safe integer, which is its decimal digits. A double from
    [2^53] on prints the shortest digits that name it, and from [10^21] on
    in exponent form: what is stated of the text of a number is stated of
    the safe integers only. *)
Definition numToString (z : Z) : string :=
  NilZero.string_of_int (Z.to_int z).

(** [typeof v] being the string type, [Array.isArray(v)], [v == null],
    truthiness. *)
Definition isString (v : JsVal) : bool :=
  match v with JStr _ => true | _ => false end.

Definition isArray (v : JsVal) : bool :=
  match v with JArr _ _ => true | _ => false end.

Definition isNullish (v : JsVal) : bool :=
  match v with JUndefined | JNull => true | _ => false end.

Definition truthy (v : JsVal) : bool :=
  match v with
  | JUndefined | JNull => false
  | JBool b => b
  | JNum n => negb (n =? 0)%Z
  | JStr s => negb (s =? "")
  | JArr _ _ | JObj _ => true
  end.

(** Values that can take a property assignment; strict-mode code (an ES
    module) raises a [TypeError] on any other. *)
Definition isObject (v : JsVal) : bool :=
  match v with JArr _ _ | JObj _ => true | _ => false end.

(** Own-property tables. *)
Fixpoint lookup (k : string) (fs : list (string * JsVal)) : JsVal :=
  match fs with
  | [] => JUndefined
  | (k', v) :: fs' => if k' =? k then v else lookup k fs'
  end.

Fixpoint update (k : string) (x : JsVal) (fs : list (string * JsVal))
  : list (string * JsVal) :=
  match fs with
  | [] => [(k, x)]
  | (k', v) :: fs' =>
      if k' =? k then (k', x) :: fs' else (k', v) :: update k x fs'
  end.

(** [v?.k] for a key [k] that no built-in prototype defines and that is
    neither an index nor [length]; all keys read by the parser are such. *)
Definition optField (v : JsVal) (k : string) : JsVal :=
  match v with
  | JObj fs => lookup k fs
  | JArr _ ps => lookup k ps
  | _ => JUndefined
  end.

(** [v.k]: reading a property of [undefined] or [null] throws. *)
Definition getField (v : JsVal) (k : string) : result JsVal :=
  if isNullish v then Throw else Ok (optField v k).

(** [v.k = x] in strict mode. *)
Definition setField (v : JsVal) (k : string) (x : JsVal) : result JsVal :=
  match v with
  | JObj fs => Ok (JObj (update k x fs))
  | JArr es ps => Ok (JArr es (update k x ps))
  | _ => Throw
  end.

(** [v[i]] for an integer [i]. *)
Definition getIndex (v : JsVal) (i : Z) : result JsVal :=
  match v with
  | JUndefined | JNull => Throw
  | JArr es ps =>
      if ((0 <=? i) && (i <? Z.of_nat (List.length es)))%Z
      then Ok (nth (Z.to_nat i) es JUndefined)
      else Ok (lookup (numToString i) ps)
  | JObj fs => Ok (lookup (numToString i) fs)
  | JStr s =>
      if (0 <=? i)%Z then
        match String.get (Z.to_nat i) s with
        | Some c => Ok (JStr (String c EmptyString))
        | None => Ok JUndefined
        end
      else Ok JUndefined
  | JBool _ | JNum _ => Ok JUndefined
  end.

(** [a ?? b]. *)
Definition coalesce (a b : JsVal) : JsVal :=
  if isNullish a then b else a.

(** [v === s] for a string [s]. *)
Definition strictEqStr (v : JsVal) (s : string) : bool :=
  match v with JStr s' => s' =? s | _ => false end.

(** Key equality of [Map] (SameValueZero). Objects are compared by
    reference; in a decoded payload every object is a reference of its
    own, so two objects met at different places are never the same key. *)
Definition sameValueZero (a b : JsVal) : bool :=
  match a, b with
  | JUndefined, JUndefined => true
  | JNull, JNull => true
  | JBool x, JBool y => Bool.eqb x y
  | JNum x, JNum y => (x =? y)%Z
  | JStr x, JStr y => x =? y
  | _, _ => false
  end.

(** [cloneDeep] of lodash: the model has value semantics, a deep copy of a
    tree is that tree, and later assignments to the copy cannot reach the
    payload. *)
Definition cloneDeep (v : JsVal) : JsVal := v.

End Js.

(** ** Strings: the marker pattern, global match, [replaceAll], [slice]

    A string is the sequence of its characters. The pattern and the
    replacement texts are ASCII, and the scan goes one character at a time,
    so the encoding of other characters plays no part. *)

Module Str.

Definition isDigit (c : ascii) : bool :=
  (48 <=? nat_of_ascii c)%nat && (nat_of_ascii c <=? 57)%nat.

(** The regular expression [/\[(doc\d\d?\d?)]/] tried at the head of [s]:
    the greedy quantifiers take three digits first, then two, then one,
    each time requiring the closing bracket next. *)
Definition matchDocAt (s : string) : option string :=
  match s with
  | String c0 (String c1 (String c2 (String c3 (String d1 r)))) =>
      if (c0 =? "[")%char && (c1 =? "d")%char && (c2 =? "o")%char
         && (c3 =? "c")%char && isDigit d1
      then
        let three :=
          match r with
          | String d2 (String d3 (String e _)) =>
              isDigit d2 && isDigit d3 && (e =? "]")%char
          | _ => false
          end in
        let two :=
          match r with
          | String d2 (String e _) => isDigit d2 && (e =? "]")%char
          | _ => false
          end in
        let one :=
          match r with
          | String e _ => (e =? "]")%char
          | _ => false
          end in
        if three then Some (substring 0 8 s)
        else if two then Some (substring 0 7 s)
        else if one then Some (substring 0 6 s)
        else None
      else None
  | _ => None
  end.

(** The scan of a global match: after a match the scan resumes behind it
    ([skip] counts the characters of the match still to pass), otherwise
    one character further. *)
Fixpoint scanLinks (skip : nat) (s : string) : list string :=
  match s with
  | EmptyString => []
  | String _ s' =>
      match skip with
      | S k => scanLinks k s'
      | O =>
          match matchDocAt s with
          | Some m => m :: scanLinks (String.length m - 1) s'
          | None => scanLinks 0 s'
          end
      end
  end.

(** [s.match(/\[(doc\d\d?\d?)]/g)]: the matched texts, or [null]. *)
Definition matchDocLinks (s : string) : option (list string) :=
  match scanLinks 0 s with
  | [] => None
  | ls => Some ls
  end.

(** [s.replaceAll(pat, repl)] for a string pattern: the occurrences are
    found left to right without overlap. The replacement texts used here
    contain no [$], so they are inserted literally. *)
Fixpoint replaceFrom (skip : nat) (pat repl s : string) : string :=
  match s with
  | EmptyString => EmptyString
  | String c s' =>
      match skip with
      | S k => replaceFrom k pat repl s'
      | O =>
          if prefix pat s
          then repl ++ replaceFrom (String.length pat - 1) pat repl s'
          else String c (replaceFrom 0 pat repl s')
      end
  end.

Fixpoint intersperse (repl s : string) : string :=
  match s with
  | EmptyString => EmptyString
  | String c s' => String c (repl ++ intersperse repl s')
  end.

Definition replaceAll (pat repl s : string) : string :=
  match pat with
  | EmptyString => repl ++ intersperse repl s
  | _ => replaceFrom 0 pat repl s
  end.

(** [s.slice(a, b)] for [0 <= a] and [0 <= b]. *)
Definition slice (a b : nat) (s : string) : string :=
  substring a (Nat.min b (String.length s) - a) s.

(** [Number(s)] for a string of decimal digits. *)
Definition digitVal (c : ascii) : nat := nat_of_ascii c - 48.

Fixpoint numberFrom (acc : nat) (s : string) : nat :=
  match s with
  | EmptyString => acc
  | String c s' => numberFrom (10 * acc + digitVal c) s'
  end.

Definition Number (s : string) : nat := numberFrom 0 s.

End Str.

Example scan_sample :
  Str.matchDocLinks "See [doc1] and [doc22], not [doc1234] or [doc]; [doc007]."
  = Some ["[doc1]"; "[doc22]"; "[doc007]"].
Proof. reflexivity. Qed.

Example replace_sample :
  Str.replaceAll "[doc1]" " ^1^ " "a[doc1]b[doc1][doc2]" = "a ^1^ b ^1^ [doc2]".
Proof. reflexivity. Qed.

Example number_sample : Str.Number "007" = 7 /\ Str.slice 4 6 "[doc12]" = "12".
Proof. split; reflexivity. Qed.

(** ** Built-in conversions: [JSON.stringify], [toString], [at(-1)] *)

Module Conv.

Definition hexDigit (n : nat) : ascii :=
  if (n <? 10)%nat then ascii_of_nat (48 + n) else ascii_of_nat (87 + n).

Definition backslash : string := String (ascii_of_nat 92) EmptyString.

(** One character inside a JSON string literal (QuoteJSONString). *)
Definition escapeChar (c : ascii) : string :=
  let n := nat_of_ascii c in
  if (n =? 8)%nat then backslash ++ "b"
  else if (n =? 9)%nat then backslash ++ "t"
  else if (n =? 10)%nat then backslash ++ "n"
  else if (n =? 12)%nat then backslash ++ "f"
  else if (n =? 13)%nat then backslash ++ "r"
  else if (n =? 34)%nat then backslash ++ Js.dquote
  else if (n =? 92)%nat then backslash ++ backslash
  else if (n <? 32)%nat then
    backslash ++ "u00"
    ++ String (hexDigit (n / 16)) (String (hexDigit (n mod 16)) EmptyString)
  else String c EmptyString.

Fixpoint escapeString (s : string) : string :=
  match s with
  | EmptyString => EmptyString
  | String c s' => escapeChar c ++ escapeString s'
  end.

Definition quote (s : string) : string :=
  Js.dquote ++ escapeString s ++ Js.dquote.

(** Serialisation without indentation; [None] where JavaScript yields
    [undefined]. An undefined array element prints as [null], an
    undefined property is left out, named properties of an array are not
    printed. *)
Fixpoint serialize (v : JsVal) : option string :=
  match v with
  | JUndefined => None
  | JNull => Some "null"
  | JBool true => Some "true"
  | JBool false => Some "false"
  | JNum n => Some (Js.numToString n)
  | JStr s => Some (quote s)
  | JArr es _ =>
      Some ("[" ++ String.concat ","
              (map (fun e => match serialize e with
                             | Some t => t
                             | None => "null"
                             end) es) ++ "]")
  | JObj fs =>
      Some ("{" ++ String.concat ","
              (flat_map (fun kv => match serialize (snd kv) with
                                   | Some t => [quote (fst kv) ++ ":" ++ t]
                                   | None => []
                                   end) fs) ++ "}")
  end.

Definition JSON_stringify (v : JsVal) : JsVal :=
  match serialize v with
  | Some t => JStr t
  | None => JUndefined
  end.

(** Whether an object has the own property [k]. *)
Definition hasKey (k : string) (fs : list (string * JsVal)) : bool :=
  existsb (fun kv => fst kv =? k) fs.

(** [Array.prototype.join] with a comma; [None] when an element has no
    text. *)
Fixpoint joinTexts (ts : list (option string)) : option string :=
  match ts with
  | [] => Some ""
  | [t] => t
  | t :: rest =>
      match t, joinTexts rest with
      | Some a, Some b => Some (a ++ "," ++ b)
      | _, _ => None
      end
  end.

(** The text of a value as [toString] and [join] build it. [null] and
    [undefined] elements of an array print as nothing. An object prints
    through [Object.prototype.toString], unless an own property [toString]
    hides that method: a decoded value is never a function, so the
    conversion raises a [TypeError] ([None]). *)
Fixpoint toText (v : JsVal) : option string :=
  match v with
  | JUndefined | JNull => Some ""
  | JBool true => Some "true"
  | JBool false => Some "false"
  | JNum n => Some (Js.numToString n)
  | JStr s => Some s
  | JArr es ps =>
      if hasKey "toString" ps then None else joinTexts (map toText es)
  | JObj fs =>
      if hasKey "toString" fs then None else Some "[object Object]"
  end.

(** [v.toString()]: a method call on [null] or [undefined] throws. *)
Definition toString (v : JsVal) : result JsVal :=
  if Js.isNullish v then Throw
  else match toText v with
       | Some t => Ok (JStr t)
       | None => Throw
       end.

Fixpoint lastChar (s : string) : option ascii :=
  match s with
  | EmptyString => None
  | String c EmptyString => Some c
  | String _ s' => lastChar s'
  end.

(** [v.at(-1)]: arrays and strings have the method; on decoded JSON
    nothing else does, and calling what is not a function throws. *)
Definition atLast (v : JsVal) : result JsVal :=
  match v with
  | JArr es _ => Ok (last es JUndefined)
  | JStr s =>
      match lastChar s with
      | Some c => Ok (JStr (String c EmptyString))
      | None => Ok JUndefined
      end
  | _ => Throw
  end.

(** [try { body } catch { handler }]. *)
Definition tryCatch {A : Type} (body handler : result A) : result A :=
  match body with
  | Ok a => Ok a
  | Throw => handler
  end.

(** Every number inside the value is a safe integer. *)
Fixpoint safeNumbers (v : JsVal) : bool :=
  match v with
  | JNum n => Js.safeInteger n
  | JArr es ps =>
      forallb safeNumbers es && forallb (fun kv => safeNumbers (snd kv)) ps
  | JObj fs => forallb (fun kv => safeNumbers (snd kv)) fs
  | _ => true
  end.

End Conv.

(** The text a template literal gives for a value: [undefined] and [null]
    print as their names, and anything else converts as [toString] does,
    which throws for an object that an own property [toString] deprives of
    the method. *)
Definition templateText (v : JsVal) : result string :=
  match v with
  | JUndefined => Ok "undefined"
  | JNull => Ok "null"
  | _ => match Conv.toText v with
         | Some t => Ok t
         | None => Throw
         end
  end.

Example stringify_sample :
  Conv.JSON_stringify
    (JObj [("page", JNum 1); ("s", JStr "a"); ("u", JUndefined);
           ("l", JArr [JNull; JUndefined; JBool true; JNum (-12)] [])])
  = JStr ("{" ++ Js.dquote ++ "page" ++ Js.dquote ++ ":1,"
          ++ Js.dquote ++ "s" ++ Js.dquote ++ ":" ++ Js.dquote ++ "a"
          ++ Js.dquote ++ "," ++ Js.dquote ++ "l" ++ Js.dquote
          ++ ":[null,null,true,-12]}").
Proof. reflexivity. Qed.

(** ** [enumerateCitations] *)

(** The [Map] from a filepath to its running counter, in insertion order. *)
Definition FilepathMap := list (JsVal * nat).

Fixpoint mapGet (k : JsVal) (m : FilepathMap) : option nat :=
  match m with
  | [] => None
  | (k', n) :: m' => if Js.sameValueZero k' k then Some n else mapGet k m'
  end.

Fixpoint mapSet (k : JsVal) (n : nat) (m : FilepathMap) : FilepathMap :=
  match m with
  | [] => [(k, n)]
  | (k', n') :: m' =>
      if Js.sameValueZero k' k then (k', n) :: m' else (k', n') :: mapSet k n m'
  end.

(** The body of the [for ... of] loop, from a given state of the map. The
    citations are updated in place in the source; here the updated list is
    rebuilt. *)
Fixpoint enumerateFrom (filepathMap : FilepathMap) (citations : list JsVal)
  : result (list JsVal) :=
  match citations with
  | [] => Ok []
  | citation :: rest =>
      filepath <- Js.getField citation "filepath" ;;
      let part_i :=
        match mapGet filepath filepathMap with
        | Some n => n + 1
        | None => 1
        end in
      citation' <- Js.setField citation "part_index" (JNum (Z.of_nat part_i)) ;;
      rest' <- enumerateFrom (mapSet filepath part_i filepathMap) rest ;;
      Ok (citation' :: rest')
  end.

Definition enumerateCitations (citations : list JsVal) : result (list JsVal) :=
  enumerateFrom [] citations.

(** ** [parseAnswer]

    The three revisions of the file differ only in the fallback extractor
    (and in logging), so the resolver is written once over the extractor and
    instantiated in each revision's module below.

    Logging. The arguments of a log call are evaluated whether or not the
    line is printed. [safeStringify] catches what it raises and
    [JSON.stringify] raises nothing on decoded values, so a log call can
    throw only where a template literal converts a value of the payload to
    text. [parseAnswer] and the extractor of the first revision have no such
    literal (theirs hold lengths, counters and texts cut from the answer);
    the extractor of the later revisions has four, which are part of its
    embedding. *)

Record ParsedAnswer : Type := {
  citations : list JsVal;
  markdownFormatText : string;
  generated_chart : JsVal
}.

(** The variables the [forEach] callback closes over. *)
Record LoopState : Type := {
  answerText : string;
  citationReindex : nat;
  filteredCitations : list JsVal
}.

Definition lengthDocN : nat := String.length "[doc".

(** The placeholder written for display number [n]. *)
Definition placeholder (n : nat) : string := " ^" ++ Js.natToString n ++ "^ ".

(** One call of the [forEach] callback on [link]. *)
Definition processLink (answer : JsVal) (st : LoopState) (link : string)
  : result LoopState :=
  let citationIndex := Str.slice lengthDocN (String.length link - 1) link in
  pool <- Js.getField answer "citations" ;;
  entry <- Js.getIndex pool (Z.of_nat (Str.Number citationIndex) - 1) ;;
  let citation := Js.cloneDeep entry in
  if negb (existsb (fun c => Js.strictEqStr (Js.optField c "id") citationIndex)
             (filteredCitations st))
     && Js.truthy citation
  then
    let n := S (citationReindex st) in
    let text := Str.replaceAll link (placeholder n) (answerText st) in
    c1 <- Js.setField citation "id" (JStr citationIndex) ;;
    c2 <- Js.setField c1 "reindex_id" (JStr (Js.natToString n)) ;;
    Ok {| answerText := text;
          citationReindex := n;
          filteredCitations := filteredCitations st ++ [c2] |}
  else Ok st.

(** [citationLinks?.forEach(...)] *)
Definition inlineCitations (answer : JsVal) (text : string) : result LoopState :=
  let init := {| answerText := text; citationReindex := 0;
                 filteredCitations := [] |} in
  match Str.matchDocLinks text with
  | None => Ok init
  | Some citationLinks => foldM (processLink answer) citationLinks init
  end.

(** [pfCitations.forEach((c, idx) => c.reindex_id = (idx + 1).toString())] *)
Fixpoint reindexFrom (idx : nat) (pfCitations : list JsVal)
  : result (list JsVal) :=
  match pfCitations with
  | [] => Ok []
  | c :: rest =>
      c' <- Js.setField c "reindex_id" (JStr (Js.natToString (idx + 1))) ;;
      rest' <- reindexFrom (S idx) rest ;;
      Ok (c' :: rest')
  end.

Definition parseAnswerWith (extract : JsVal -> result (list JsVal))
  (answer : JsVal) : result (option ParsedAnswer) :=
  a <- Js.getField answer "answer" ;;
  match a with
  | JStr text =>
      st <- inlineCitations answer text ;;
      filtered <-
        (if (List.length (filteredCitations st) =? 0)%nat then
           pfCitations <- extract answer ;;
           if (0 <? List.length pfCitations)%nat
           then reindexFrom 0 pfCitations
           else Ok (filteredCitations st)
         else Ok (filteredCitations st)) ;;
      enumerated <- enumerateCitations filtered ;;
      chart <- Js.getField answer "generated_chart" ;;
      Ok (Some {| citations := enumerated;
                  markdownFormatText := answerText st;
                  generated_chart := chart |})
  | _ => Ok None
  end.

(** ** The Prompt Flow fallback, first revision: top-level [citations] *)

Module Flat.

(** [pf && (pf.docID != null || pf.pageSource != null || pf.URL != null)] *)
Definition hasPFKeys (pf : JsVal) : bool :=
  Js.truthy pf
  && (negb (Js.isNullish (Js.optField pf "docID"))
      || negb (Js.isNullish (Js.optField pf "pageSource"))
      || negb (Js.isNullish (Js.optField pf "URL"))).

(** The object literal built for item [i] (0-based) of the array. *)
Definition citationOf (pf : JsVal) (i : nat) : JsVal :=
  JObj
    [ ("id", Js.coalesce (Js.optField pf "docID") (JStr (Js.natToString (i + 1))));
      ("content", Js.coalesce (Js.optField pf "content") (JStr ""));
      ("title", Js.coalesce (Js.optField pf "title") JNull);
      ("filepath", Js.coalesce (Js.optField pf "pageSource") JNull);
      ("url", Js.coalesce (Js.optField pf "URL") JNull);
      ("metadata",
        if negb (Js.isNullish (Js.optField pf "page"))
        then Conv.JSON_stringify (JObj [("page", Js.optField pf "page")])
        else Js.coalesce (Js.optField pf "metadata") JNull);
      ("chunk_id", Js.coalesce (Js.optField pf "chunk_id") JNull);
      ("reindex_id", JNull);
      ("part_index", Js.coalesce (Js.optField pf "page") JUndefined) ].

Fixpoint citationsFrom (i : nat) (cits : list JsVal) : list JsVal :=
  match cits with
  | [] => []
  | pf :: rest =>
      if hasPFKeys pf
      then citationOf pf i :: citationsFrom (S i) rest
      else citationsFrom (S i) rest
  end.

Definition extractPromptFlowCitations (answer : JsVal) : result (list JsVal) :=
  match Js.optField answer "citations" with
  | JArr cits _ => Ok (citationsFrom 0 cits)
  | _ => Ok []
  end.

Definition parseAnswer : JsVal -> result (option ParsedAnswer) :=
  parseAnswerWith extractPromptFlowCitations.

End Flat.

(** ** The Prompt Flow fallback, later revisions: tool messages of [choices] *)

Module Structured.
Section WithParser.

(** [JSON.parse]; [None] stands for the [SyntaxError] it raises. *)
Variable JSON_parse : string -> option JsVal.

Definition citationOf (pf : JsVal) (i : nat) : JsVal :=
  JObj
    [ ("id", Js.coalesce (Js.optField pf "docId") (JStr (Js.natToString (i + 1))));
      ("content", Js.coalesce (Js.optField pf "content") (JStr ""));
      ("title", Js.coalesce (Js.optField pf "title") JNull);
      ("filepath",
        Js.coalesce (Js.optField pf "source")
          (Js.coalesce (Js.optField pf "filepath") JNull));
      ("url", Js.coalesce (Js.optField pf "url") JNull);
      ("metadata",
        if negb (Js.isNullish (Js.optField pf "page"))
        then Conv.JSON_stringify (JObj [("page", Js.optField pf "page")])
        else Js.coalesce (Js.optField pf "metadata") JNull);
      ("chunk_id", Js.coalesce (Js.optField pf "chunk_id") JNull);
      ("reindex_id", JNull);
      ("part_index", Js.coalesce (Js.optField pf "page") JUndefined) ].

(** The three log lines written once a citation is built. Their template
    literals convert [pf?.docId], [citation.id], [pf?.source],
    [citation.filepath], [pf?.page] and [citation.part_index] to text before
    the logger is entered; a conversion that throws is not caught. *)
Definition logCitation (pf citation : JsVal) : result unit :=
  docId <- templateText (Js.optField pf "docId") ;;
  id <- templateText (Js.optField citation "id") ;;
  source <- templateText (Js.optField pf "source") ;;
  filepath <- templateText (Js.optField citation "filepath") ;;
  page <- templateText (Js.optField pf "page") ;;
  part_index <- templateText (Js.optField citation "part_index") ;;
  Ok tt.

Fixpoint citationsFrom (i : nat) (cits : list JsVal) : result (list JsVal) :=
  match cits with
  | [] => Ok []
  | pf :: rest =>
      let citation := citationOf pf i in
      logged <- logCitation pf citation ;;
      out <- citationsFrom (S i) rest ;;
      Ok (citation :: out)
  end.

(** What one element of [messages] adds to [out]. The log line of a
    message that is skipped for its role converts [msg?.role] to text. *)
Definition messageCitations (msg : JsVal) : result (list JsVal) :=
  if negb (Js.strictEqStr (Js.optField msg "role") "tool") then
    role <- templateText (Js.optField msg "role") ;;
    Ok []
  else if Js.isNullish (Js.optField msg "content") then Ok []
  else
    let parsed :=
      match Js.optField msg "content" with
      | JStr text => JSON_parse text
      | content => Some content
      end in
    match parsed with
    | None => Ok []
    | Some contentObj =>
        match Js.optField contentObj "citations" with
        | JArr cits _ => citationsFrom 0 cits
        | _ => Ok []
        end
    end.

Definition choiceCitations (choice : JsVal) : result (list JsVal) :=
  match Js.optField choice "messages" with
  | JArr messages _ => concatM messageCitations messages
  | _ => Ok []
  end.

Definition extractPromptFlowCitations (answer : JsVal) : result (list JsVal) :=
  match Js.optField answer "choices" with
  | JArr choices _ => concatM choiceCitations choices
  | _ => Ok []
  end.

Definition parseAnswer : JsVal -> result (option ParsedAnswer) :=
  parseAnswerWith extractPromptFlowCitations.

End WithParser.
End Structured.

(** ** [parsePlotFromMessage] of [Chat.tsx] *)

Section Chart.

Variable JSON_parse : string -> option JsVal.

Definition parseOrThrow (text : string) : result JsVal :=
  match JSON_parse text with
  | Some v => Ok v
  | None => Throw
  end.

(** The body of the [try] block, for the text of [message.content]. *)
Definition plotOfContent (content : string) : result JsVal :=
  execResults <- parseOrThrow content ;;
  all_exec_results <- Js.getField execResults "all_exec_results" ;;
  lastResult <- Conv.atLast all_exec_results ;;
  let codeExecResult := Js.optField lastResult "code_exec_result" in
  match codeExecResult with
  | JUndefined => Ok JNull
  | _ => Conv.toString codeExecResult
  end.

Definition parsePlotFromMessage (message : JsVal) : result JsVal :=
  if Js.truthy (Js.optField message "role")
     && Js.strictEqStr (Js.optField message "role") "tool"
  then
    match Js.optField message "content" with
    | JStr content => Conv.tryCatch (plotOfContent content) (Ok JNull)
    | _ => Ok JNull
    end
  else Ok JNull.

End Chart.

(** * Properties *)

(** ** Property tables and assignments *)

Lemma lookup_update_same (k : string) (x : JsVal) (fs : list (string * JsVal)) :
  Js.lookup k (Js.update k x fs) = x.
Proof.
  induction fs as [|[k' v] fs IH]; simpl.
  - now rewrite String.eqb_refl.
  - destruct (k' =? k) eqn:E; simpl; rewrite E; auto.
Qed.

Lemma lookup_update_other (k k' : string) (x : JsVal)
  (fs : list (string * JsVal)) :
  k <> k' -> Js.lookup k' (Js.update k x fs) = Js.lookup k' fs.
Proof.
  intros Hne. induction fs as [|[k0 v] fs IH]; simpl.
  - destruct (k =? k') eqn:E; auto. apply String.eqb_eq in E. contradiction.
  - destruct (k0 =? k) eqn:E; simpl.
    + apply String.eqb_eq in E. subst k0.
      destruct (k =? k') eqn:E'; auto.
      apply String.eqb_eq in E'. contradiction.
    + destruct (k0 =? k'); auto.
Qed.

(** The object after [v.k = x], for a value that accepts the assignment. *)
Definition assign (v : JsVal) (k : string) (x : JsVal) : JsVal :=
  match v with
  | JObj fs => JObj (Js.update k x fs)
  | JArr es ps => JArr es (Js.update k x ps)
  | _ => v
  end.

Lemma setField_object (v : JsVal) (k : string) (x : JsVal) :
  Js.isObject v = true -> Js.setField v k x = Ok (assign v k x).
Proof. destruct v; simpl; intros H; try discriminate; reflexivity. Qed.

Lemma setField_primitive (v : JsVal) (k : string) (x : JsVal) :
  Js.isObject v = false -> Js.setField v k x = Throw.
Proof. destruct v; simpl; intros H; try discriminate; reflexivity. Qed.

Lemma assign_object (v : JsVal) (k : string) (x : JsVal) :
  Js.isObject v = true -> Js.isObject (assign v k x) = true.
Proof. destruct v; simpl; auto. Qed.

Lemma assign_same (v : JsVal) (k : string) (x : JsVal) :
  Js.isObject v = true -> Js.optField (assign v k x) k = x.
Proof.
  destruct v; simpl; intros H; try discriminate; apply lookup_update_same.
Qed.

Lemma assign_other (v : JsVal) (k k' : string) (x : JsVal) :
  k <> k' -> Js.optField (assign v k x) k' = Js.optField v k'.
Proof.
  intros Hne. destruct v; simpl; auto using lookup_update_other.
Qed.

Lemma object_not_nullish (v : JsVal) :
  Js.isObject v = true -> Js.isNullish v = false.
Proof. destruct v; simpl; auto; discriminate. Qed.

Lemma getField_object (v : JsVal) (k : string) :
  Js.isNullish v = false -> Js.getField v k = Ok (Js.optField v k).
Proof. unfold Js.getField. now intros ->. Qed.

Create HintDb js.
#[local] Hint Resolve assign_object object_not_nullish : js.

(** ** Keys of the filepath map *)

Lemma sameValueZero_eq (a b : JsVal) :
  Js.sameValueZero a b = true -> a = b.
Proof.
  destruct a, b; simpl; intros H; try discriminate; auto.
  - apply Bool.eqb_prop in H. now subst.
  - apply Z.eqb_eq in H. now subst.
  - apply String.eqb_eq in H. now subst.
Qed.

Lemma mapGet_mapSet (k0 k : JsVal) (n : nat) (m : FilepathMap) :
  mapGet k (mapSet k0 n m)
  = if Js.sameValueZero k0 k then Some n else mapGet k m.
Proof.
  induction m as [|[k' n'] m IH]; simpl.
  - reflexivity.
  - destruct (Js.sameValueZero k' k0) eqn:E0; simpl.
    + apply sameValueZero_eq in E0. subst k'.
      destruct (Js.sameValueZero k0 k); reflexivity.
    + rewrite IH.
      destruct (Js.sameValueZero k' k) eqn:E1;
        destruct (Js.sameValueZero k0 k) eqn:E2; auto.
      pose proof (sameValueZero_eq _ _ E1) as H1.
      pose proof (sameValueZero_eq _ _ E2) as H2.
      subst k' k0. congruence.
Qed.

(** ** Enumeration of the parts of a document *)

Definition filepathOf (c : JsVal) : JsVal := Js.optField c "filepath".

(** How many of the [earlier] citations fall under the map key [k]. *)
Definition sameFileBefore (k : JsVal) (earlier : list JsVal) : nat :=
  List.length (filter (fun c => Js.sameValueZero (filepathOf c) k) earlier).

(** The citation [c] once the loop has numbered it after [earlier]. *)
Definition numbered (earlier : list JsVal) (c : JsVal) : JsVal :=
  assign c "part_index"
    (JNum (Z.of_nat (S (sameFileBefore (filepathOf c) earlier)))).

(** The map holds, for every key, the number of citations seen under it. *)
Definition mapCounts (m : FilepathMap) (earlier : list JsVal) : Prop :=
  forall k, mapGet k m = match sameFileBefore k earlier with
                         | O => None
                         | S n => Some (S n)
                         end.

Lemma sameFileBefore_snoc (k : JsVal) (earlier : list JsVal) (c : JsVal) :
  sameFileBefore k (earlier ++ [c])
  = sameFileBefore k earlier
    + (if Js.sameValueZero (filepathOf c) k then 1 else 0).
Proof.
  unfold sameFileBefore. rewrite filter_app, length_app. simpl.
  destruct (Js.sameValueZero (filepathOf c) k); reflexivity.
Qed.

Lemma mapCounts_step (m : FilepathMap) (earlier : list JsVal) (c : JsVal) :
  mapCounts m earlier ->
  mapCounts (mapSet (filepathOf c) (S (sameFileBefore (filepathOf c) earlier)) m)
    (earlier ++ [c]).
Proof.
  intros Hm k. rewrite mapGet_mapSet, sameFileBefore_snoc.
  destruct (Js.sameValueZero (filepathOf c) k) eqn:E.
  - apply sameValueZero_eq in E. rewrite E.
    now replace (sameFileBefore k earlier + 1) with (S (sameFileBefore k earlier))
      by lia.
  - rewrite Nat.add_0_r. apply Hm.
Qed.

Lemma enumerateFrom_spec (cs : list JsVal) :
  forall (m : FilepathMap) (earlier : list JsVal),
    mapCounts m earlier ->
    Forall (fun c => Js.isObject c = true) cs ->
    exists out,
      enumerateFrom m cs = Ok out
      /\ List.length out = List.length cs
      /\ forall i c, nth_error cs i = Some c ->
           nth_error out i = Some (numbered (earlier ++ firstn i cs) c).
Proof.
  induction cs as [|c rest IH]; intros m earlier Hm Hobj.
  - exists []. repeat split; auto. intros [|i] c H; discriminate.
  - inversion Hobj as [|? ? Hc Hrest]; subst.
    simpl. rewrite getField_object by auto with js. simpl.
    fold (filepathOf c).
    assert (Hpart :
      match mapGet (filepathOf c) m with Some n => n + 1 | None => 1 end
      = S (sameFileBefore (filepathOf c) earlier)).
    { rewrite (Hm (filepathOf c)).
      destruct (sameFileBefore (filepathOf c) earlier); lia. }
    rewrite Hpart. rewrite setField_object by assumption. simpl.
    destruct (IH _ _ (mapCounts_step m earlier c Hm) Hrest)
      as (out & Hout & Hlen & Hnth).
    rewrite Hout. simpl.
    exists (numbered earlier c :: out). repeat split.
    + simpl. now rewrite Hlen.
    + intros [|i] c' Hc'; simpl in *.
      * injection Hc' as <-. now rewrite app_nil_r.
      * rewrite (Hnth i c' Hc'). now rewrite <- app_assoc.
Qed.

Lemma mapCounts_empty : mapCounts [] [].
Proof. intros k. reflexivity. Qed.

Lemma enumerateCitations_spec (cs : list JsVal) :
  Forall (fun c => Js.isObject c = true) cs ->
  exists out,
    enumerateCitations cs = Ok out
    /\ List.length out = List.length cs
    /\ forall i c, nth_error cs i = Some c ->
         nth_error out i = Some (numbered (firstn i cs) c).
Proof.
  intros Hobj.
  destruct (enumerateFrom_spec cs [] [] mapCounts_empty Hobj)
    as (out & H1 & H2 & H3).
  exists out. repeat split; auto.
Qed.

(** Enumeration touches nothing but [part_index]. *)
Lemma numbered_other (earlier : list JsVal) (c : JsVal) (k : string) :
  k <> "part_index" -> Js.optField (numbered earlier c) k = Js.optField c k.
Proof. intros H. unfold numbered. apply assign_other. congruence. Qed.

Lemma numbered_object (earlier : list JsVal) (c : JsVal) :
  Js.isObject c = true -> Js.isObject (numbered earlier c) = true.
Proof. intros H. unfold numbered. auto with js. Qed.

(** C7. The final enumeration pass numbers every citation, in list order,
    with one more than the number of earlier citations of the same filepath
    (the key of the map, [null] being a key like any other), and writes that
    number over whatever [part_index] held before; citations with
    filepaths [A, A, B] get the part indices [1, 2, 1]. *)
Theorem enumerateCitations_part_index :
  (forall cs : list JsVal,
     Forall (fun c => Js.isObject c = true) cs ->
     exists out,
       enumerateCitations cs = Ok out
       /\ List.length out = List.length cs
       /\ forall i c, nth_error cs i = Some c ->
            exists c',
              nth_error out i = Some c'
              /\ Js.optField c' "part_index"
                 = JNum (Z.of_nat (S (sameFileBefore (filepathOf c) (firstn i cs))))
              /\ forall k, k <> "part_index" ->
                   Js.optField c' k = Js.optField c k)
  /\ (forall (c1 c2 c3 A B : JsVal),
        Js.isObject c1 = true -> Js.isObject c2 = true ->
        Js.isObject c3 = true ->
        filepathOf c1 = A -> filepathOf c2 = A -> filepathOf c3 = B ->
        Js.sameValueZero A A = true -> Js.sameValueZero A B = false ->
        exists out,
          enumerateCitations [c1; c2; c3] = Ok out
          /\ map (fun c => Js.optField c "part_index") out
             = [JNum 1; JNum 2; JNum 1]).
Proof.
  split.
  - intros cs Hobj.
    destruct (enumerateCitations_spec cs Hobj) as (out & H1 & H2 & H3).
    exists out. repeat split; auto.
    intros i c Hc. exists (numbered (firstn i cs) c). repeat split.
    + auto.
    + unfold numbered. apply assign_same.
      apply nth_error_In in Hc. rewrite Forall_forall in Hobj. auto.
    + intros k Hk. now apply numbered_other.
  - intros c1 c2 c3 A B O1 O2 O3 F1 F2 F3 HAA HAB.
    assert (Hobj : Forall (fun c => Js.isObject c = true) [c1; c2; c3])
      by (repeat constructor; assumption).
    destruct (enumerateCitations_spec _ Hobj) as (out & H1 & H2 & H3).
    exists out. split; [assumption|].
    pose proof (H3 0 c1 eq_refl) as N1.
    pose proof (H3 1 c2 eq_refl) as N2.
    pose proof (H3 2 c3 eq_refl) as N3.
    destruct out as [|o1 [|o2 [|o3 [|? ?]]]]; try discriminate.
    simpl in N1, N2, N3.
    injection N1 as ->. injection N2 as ->. injection N3 as ->.
    unfold numbered. simpl.
    rewrite !assign_same by assumption.
    unfold sameFileBefore. simpl. rewrite F1, F2, F3, HAA, HAB.
    reflexivity.
Qed.

Definition sampleCitation (id filepath : string) (part : JsVal) : JsVal :=
  JObj [("id", JStr id); ("filepath", JStr filepath); ("part_index", part);
        ("content", JStr ""); ("title", JNull); ("url", JNull);
        ("metadata", JNull); ("chunk_id", JNull); ("reindex_id", JNull)].

Lemma enumerateCitations_part_index_witness :
  exists out,
    enumerateCitations
      [sampleCitation "doc1" "file1.pdf" JUndefined;
       sampleCitation "doc2" "file1.pdf" (JNum 9);
       sampleCitation "doc3" "file2.pdf" (JNum 7)] = Ok out
    /\ map (fun c => Js.optField c "part_index") out
       = [JNum 1; JNum 2; JNum 1].
Proof.
  apply (proj2 enumerateCitations_part_index) with
    (A := JStr "file1.pdf") (B := JStr "file2.pdf"); reflexivity.
Defined.

(** ** Validation of the answer text *)

(** C4. A payload whose [answer] field is absent or is not a string (a
    number, say) makes [parseAnswer] return [null], in either revision and
    whatever the fallback extractor would do: nothing is thrown, and no
    citations, text or chart are produced. *)
Theorem parseAnswer_non_string_is_null
  (extract : JsVal -> result (list JsVal)) (answer : JsVal) :
  Js.isNullish answer = false ->
  Js.isString (Js.optField answer "answer") = false ->
  parseAnswerWith extract answer = Ok None
  /\ Flat.parseAnswer answer = Ok None
  /\ forall JSON_parse, Structured.parseAnswer JSON_parse answer = Ok None.
Proof.
  intros Hobj Hstr.
  assert (H : forall e, parseAnswerWith e answer = Ok None).
  { intros e. unfold parseAnswerWith.
    rewrite getField_object by assumption. simpl.
    destruct (Js.optField answer "answer"); try reflexivity.
    discriminate. }
  repeat split; intros; apply H.
Qed.

Lemma parseAnswer_non_string_is_null_witness :
  parseAnswerWith (fun _ => Throw)
    (JObj [("answer", JNum 42); ("citations", JArr [] [])]) = Ok None
  /\ Flat.parseAnswer (JObj [("answer", JNum 42); ("citations", JArr [] [])])
     = Ok None.
Proof.
  destruct (parseAnswer_non_string_is_null (fun _ => Throw)
              (JObj [("answer", JNum 42); ("citations", JArr [] [])])
              eq_refl eq_refl) as (H1 & H2 & _).
  split; assumption.
Defined.

(** ** Metadata of a normalised citation *)

Lemma serialize_defined (v : JsVal) :
  v <> JUndefined -> exists t, Conv.serialize v = Some t.
Proof.
  destruct v as [| |[|]| | | |]; simpl; intros H; try (eexists; reflexivity).
  congruence.
Qed.

(** The JSON text of an object whose only property is [page]. *)
Definition pageJson (t : string) : string :=
  "{" ++ Js.dquote ++ "page" ++ Js.dquote ++ ":" ++ t ++ "}".

Lemma stringify_page (page : JsVal) (t : string) :
  Conv.serialize page = Some t ->
  Conv.JSON_stringify (JObj [("page", page)]) = JStr (pageJson t).
Proof.
  intros H. unfold Conv.JSON_stringify. simpl. rewrite H. simpl.
  reflexivity.
Qed.

(** What both revisions compute for the [metadata] field from an item. *)
Definition metadataOf (pf : JsVal) : JsVal :=
  if negb (Js.isNullish (Js.optField pf "page"))
  then Conv.JSON_stringify (JObj [("page", Js.optField pf "page")])
  else Js.coalesce (Js.optField pf "metadata") JNull.

Lemma citationOf_metadata (pf : JsVal) (i : nat) :
  Js.optField (Flat.citationOf pf i) "metadata" = metadataOf pf
  /\ Js.optField (Structured.citationOf pf i) "metadata" = metadataOf pf.
Proof. split; reflexivity. Qed.

Lemma metadataOf_page (pf : JsVal) :
  Js.isNullish (Js.optField pf "page") = false ->
  exists t, Conv.serialize (Js.optField pf "page") = Some t
            /\ metadataOf pf = JStr (pageJson t).
Proof.
  intros Hp. unfold metadataOf. rewrite Hp. simpl.
  destruct (serialize_defined (Js.optField pf "page")) as [t Ht].
  { intros E. rewrite E in Hp. discriminate. }
  exists t. split; [assumption|]. now apply stringify_page.
Qed.

Definition scenarioItem : JsVal :=
  JObj [("docId", JStr "TI46"); ("page", JNum 1); ("source", JStr "doc.pdf")].

(** Items that carry both a page number and a metadata string, with the
    keys of the later revisions and with those of the first. *)
Definition pagedItemWithMetadata : JsVal :=
  JObj [("docId", JStr "TI46"); ("page", JNum 1); ("metadata", JStr "m")].

Definition pagedFlatItemWithMetadata : JsVal :=
  JObj [("docID", JStr "TI46"); ("page", JNum 1); ("metadata", JStr "m")].

(** C8, as the code has it. In both revisions of the normaliser, an item
    with a page ([page] neither [null] nor [undefined]) gets as metadata the
    JSON text of an object with the single key [page], whether or not the
    item also has a metadata value of its own; for a page that is a safe
    integer that text has the digits of the page. An item without a page
    keeps its own metadata unchanged; an item with neither gets [null]. The
    item [{docId:"TI46", page:1, source:"doc.pdf"}] gets the text of
    [{"page":1}] in the later revisions. *)
Theorem citation_metadata_rule (pf : JsVal) (i : nat) :
  forall citation,
    citation = Flat.citationOf pf i \/ citation = Structured.citationOf pf i ->
    let page := Js.optField pf "page" in
    let own := Js.optField pf "metadata" in
    let metadata := Js.optField citation "metadata" in
    (Js.isNullish page = false -> Conv.safeNumbers page = true ->
       exists t, Conv.serialize page = Some t /\ metadata = JStr (pageJson t))
    /\ (forall n, page = JNum n -> Js.safeInteger n = true ->
          metadata = JStr (pageJson (Js.numToString n)))
    /\ (Js.isNullish page = true -> Js.isNullish own = false ->
          metadata = own)
    /\ (Js.isNullish page = true -> Js.isNullish own = true ->
          metadata = JNull)
    /\ Js.optField (Structured.citationOf scenarioItem 0) "metadata"
       = JStr (pageJson "1").
Proof.
  intros citation Hc page own metadata.
  assert (E : metadata = metadataOf pf).
  { subst metadata. destruct Hc as [-> | ->]; apply citationOf_metadata. }
  rewrite E. subst page own.
  split; [|split; [|split; [|split]]].
  - intros Hp _. now apply metadataOf_page.
  - intros n Hn _.
    destruct (metadataOf_page pf) as (t & Ht & ->).
    { now rewrite Hn. }
    rewrite Hn in Ht. simpl in Ht. now injection Ht as <-.
  - intros Hp Hmd. unfold metadataOf, Js.coalesce. now rewrite Hp, Hmd.
  - intros Hp Hmd. unfold metadataOf, Js.coalesce. now rewrite Hp, Hmd.
  - reflexivity.
Qed.

Lemma citation_metadata_rule_witness :
  Js.optField (Structured.citationOf pagedItemWithMetadata 0) "metadata"
  = JStr (pageJson (Js.numToString 1)).
Proof.
  exact (proj1 (proj2 (citation_metadata_rule pagedItemWithMetadata 0 _
                         (or_intror eq_refl))) 1%Z eq_refl eq_refl).
Defined.

(** The specification lets an explicit metadata string pass through; with a
    page present the code replaces it, in the later revisions and, for an
    item that the first revision keeps, in the first. *)
Lemma citation_metadata_explicit_overridden :
  Js.optField pagedItemWithMetadata "metadata" = JStr "m"
  /\ Js.optField (Structured.citationOf pagedItemWithMetadata 0) "metadata"
     = JStr (pageJson "1")
  /\ Js.optField (Structured.citationOf pagedItemWithMetadata 0) "metadata"
     <> JStr "m"
  /\ Flat.hasPFKeys pagedFlatItemWithMetadata = true
  /\ Js.optField pagedFlatItemWithMetadata "metadata" = JStr "m"
  /\ Js.optField (Flat.citationOf pagedFlatItemWithMetadata 0) "metadata"
     = JStr (pageJson "1").
Proof. repeat split; intros H; vm_compute in H; discriminate. Qed.

(** ** The chart *)

Lemma bind_Ok {A B : Type} (r : result A) (k : A -> result B) (b : B) :
  bind r k = Ok b -> exists a, r = Ok a /\ k a = Ok b.
Proof. destruct r; simpl; intros H; [eauto | discriminate]. Qed.

(** The resolver copies the chart field of the payload. *)
Lemma parseAnswerWith_chart (extract : JsVal -> result (list JsVal))
  (answer : JsVal) (r : ParsedAnswer) :
  parseAnswerWith extract answer = Ok (Some r) ->
  generated_chart r = Js.optField answer "generated_chart".
Proof.
  unfold parseAnswerWith. intros H.
  apply bind_Ok in H. destruct H as (a & Ha & H).
  destruct a; try discriminate.
  apply bind_Ok in H. destruct H as (st & _ & H).
  apply bind_Ok in H. destruct H as (filtered & _ & H).
  apply bind_Ok in H. destruct H as (enumerated & _ & H).
  apply bind_Ok in H. destruct H as (chart & Hc & H).
  injection H as <-. simpl.
  unfold Js.getField in Hc. destruct (Js.isNullish answer); congruence.
Qed.

Section ChartProperties.

Variable JSON_parse : string -> option JsVal.

Lemma plotOfContent_caught (content : string) :
  exists v,
    Conv.tryCatch (plotOfContent JSON_parse content) (Ok JNull) = Ok v
    /\ (v = JNull \/ exists s, v = JStr s).
Proof.
  destruct (plotOfContent JSON_parse content) as [v|] eqn:E; simpl.
  - exists v. split; [reflexivity|].
    unfold plotOfContent in E.
    apply bind_Ok in E. destruct E as (x & _ & E).
    apply bind_Ok in E. destruct E as (y & _ & E).
    apply bind_Ok in E. destruct E as (z & _ & E).
    assert (Hs : forall x, Conv.toString x = Ok v -> exists s, v = JStr s).
    { intros x' Hx. unfold Conv.toString in Hx.
      destruct (Js.isNullish x'); [discriminate|].
      destruct (Conv.toText x'); [|discriminate].
      injection Hx as <-. eauto. }
    destruct (Js.optField z "code_exec_result") eqn:Ec;
      try (injection E as <-; eauto; fail); eauto.
  - exists JNull. auto.
Qed.

(** The extractor on a tool message whose content is a text. *)
Lemma parsePlot_tool (message : JsVal) (content : string) :
  Js.strictEqStr (Js.optField message "role") "tool" = true ->
  Js.optField message "content" = JStr content ->
  parsePlotFromMessage JSON_parse message
  = Conv.tryCatch (plotOfContent JSON_parse content) (Ok JNull).
Proof.
  intros Hr Hc. unfold parsePlotFromMessage. rewrite Hr, Hc.
  destruct (Js.optField message "role"); try discriminate.
  simpl in Hr. apply String.eqb_eq in Hr. subst. reflexivity.
Qed.

Lemma plotOfContent_array (content : string) (execResults : JsVal)
  (es : list JsVal) (ps : list (string * JsVal)) :
  JSON_parse content = Some execResults ->
  Js.optField execResults "all_exec_results" = JArr es ps ->
  plotOfContent JSON_parse content
  = match Js.optField (last es JUndefined) "code_exec_result" with
    | JUndefined => Ok JNull
    | chart => Conv.toString chart
    end.
Proof.
  intros Hp Ha. unfold plotOfContent, parseOrThrow. rewrite Hp. simpl.
  unfold Js.getField.
  destruct (Js.isNullish execResults) eqn:En.
  - destruct execResults; discriminate.
  - simpl. rewrite Ha. simpl.
    destruct (Js.optField (last es JUndefined) "code_exec_result");
      reflexivity.
Qed.

Lemma plotOfContent_no_array (content : string) (execResults : JsVal) :
  JSON_parse content = Some execResults ->
  Js.isArray (Js.optField execResults "all_exec_results") = false ->
  Conv.tryCatch (plotOfContent JSON_parse content) (Ok JNull) = Ok JNull.
Proof.
  intros Hp Ha. unfold plotOfContent, parseOrThrow. rewrite Hp. simpl.
  unfold Js.getField.
  destruct (Js.isNullish execResults); [reflexivity|]. simpl.
  destruct (Js.optField execResults "all_exec_results") eqn:E;
    try reflexivity; try discriminate.
  simpl. destruct (Conv.lastChar s); reflexivity.
Qed.

End ChartProperties.

(** A finite stand-in for [JSON.parse] in the closed examples: it decodes
    the JSON texts of the documents listed here (each text is the
    serialisation of its document) and fails on any other text; the
    examples call it on these texts and on the malformed [{invalid json]
    only. *)
Definition sampleDocuments : list JsVal :=
  [ JObj [("all_exec_results", JArr [JObj [("code_exec_result", JNum 5)]] [])];
    JObj [("all_exec_results",
           JArr [JObj [("code_exec_result", JStr "stale")];
                 JObj [("code_exec_result", JStr "iVBORw0KGgo")]] [])];
    JObj [("citations", JArr [scenarioItem] [])];
    JObj [("citations",
           JArr [JObj [("docId", JStr "TI46"); ("page", JNum 1)];
                 JObj [("docId", JStr "TI46"); ("page", JNum 2)]] [])] ].

Definition textOf (v : JsVal) : string :=
  match Conv.serialize v with
  | Some t => t
  | None => ""
  end.

Definition JSON_parse_samples (text : string) : option JsVal :=
  find (fun v => textOf v =? text) sampleDocuments.

Definition toolMessage (content : JsVal) : JsVal :=
  JObj [("role", JStr "tool"); ("content", content)].

(** C9, as the code has it. [parsePlotFromMessage] never throws and returns
    [null] or a string. It returns [null] when the message is not a tool
    message, when its content is not a text, when the text is not JSON,
    when the decoded value has no array under [all_exec_results] or an
    empty one, and when the last execution result has no
    [code_exec_result] (or a [null] one). Otherwise it returns the string
    form ([toString]) of that field, which is the field itself when the
    field is a string and the digits of a safe integer, and [null] if the
    conversion throws. The resolver for its part returns the payload's own
    [generated_chart] field. *)
Theorem parsePlotFromMessage_rule
  (JSON_parse : string -> option JsVal) (message : JsVal) :
  let result := parsePlotFromMessage JSON_parse message in
  (exists v, result = Ok v /\ (v = JNull \/ exists s, v = JStr s))
  /\ (Js.strictEqStr (Js.optField message "role") "tool" = false ->
      result = Ok JNull)
  /\ (Js.isString (Js.optField message "content") = false ->
      result = Ok JNull)
  /\ (forall content,
        Js.optField message "content" = JStr content ->
        JSON_parse content = None ->
        result = Ok JNull)
  /\ (forall content execResults,
        Js.strictEqStr (Js.optField message "role") "tool" = true ->
        Js.optField message "content" = JStr content ->
        JSON_parse content = Some execResults ->
        (Js.isArray (Js.optField execResults "all_exec_results") = false ->
         result = Ok JNull)
        /\ forall es ps,
             Js.optField execResults "all_exec_results" = JArr es ps ->
             let chart := Js.optField (last es JUndefined) "code_exec_result" in
             (es = [] -> result = Ok JNull)
             /\ (Js.isNullish chart = true -> result = Ok JNull)
             /\ (forall t,
                   Js.isNullish chart = false ->
                   Conv.safeNumbers chart = true ->
                   Conv.toText chart = Some t ->
                   result = Ok (JStr t))
             /\ (Conv.toText chart = None -> result = Ok JNull)
             /\ (forall s, chart = JStr s -> result = Ok (JStr s)))
  /\ (forall extract answer r,
        parseAnswerWith extract answer = Ok (Some r) ->
        generated_chart r = Js.optField answer "generated_chart").
Proof.
  intros result. subst result.
  assert (Hfalse : forall b, b = false ->
            (if b then
               match Js.optField message "content" with
               | JStr content =>
                   Conv.tryCatch (plotOfContent JSON_parse content) (Ok JNull)
               | _ => Ok JNull
               end
             else Ok JNull) = Ok JNull) by (intros b ->; reflexivity).
  repeat split.
  - unfold parsePlotFromMessage.
    destruct (Js.truthy (Js.optField message "role")
              && Js.strictEqStr (Js.optField message "role") "tool");
      [|exists JNull; auto].
    destruct (Js.optField message "content");
      try (exists JNull; auto; fail).
    apply plotOfContent_caught.
  - intros Hr. unfold parsePlotFromMessage. rewrite Hr, andb_false_r.
    reflexivity.
  - intros Hc. unfold parsePlotFromMessage.
    destruct (Js.optField message "content"); try discriminate;
      destruct (_ && _); reflexivity.
  - intros content Hc Hp. unfold parsePlotFromMessage. rewrite Hc.
    unfold plotOfContent, parseOrThrow. rewrite Hp. simpl.
    destruct (_ && _); reflexivity.
  - intros Ha. rewrite (parsePlot_tool _ _ _ H H0).
    now apply plotOfContent_no_array with (execResults := execResults).
  - intros ->. rewrite (parsePlot_tool _ _ _ H H0).
    rewrite (plotOfContent_array _ _ _ _ _ H1 H2). reflexivity.
  - intros Hn. rewrite (parsePlot_tool _ _ _ H H0).
    rewrite (plotOfContent_array _ _ _ _ _ H1 H2).
    destruct (Js.optField (last es JUndefined) "code_exec_result");
      try discriminate; reflexivity.
  - intros t Hn _ Ht. rewrite (parsePlot_tool _ _ _ H H0).
    rewrite (plotOfContent_array _ _ _ _ _ H1 H2).
    destruct (Js.optField (last es JUndefined) "code_exec_result");
      try discriminate;
      unfold Conv.toString; cbn [Js.isNullish]; rewrite Ht; reflexivity.
  - intros Ht. rewrite (parsePlot_tool _ _ _ H H0).
    rewrite (plotOfContent_array _ _ _ _ _ H1 H2).
    destruct (Js.optField (last es JUndefined) "code_exec_result")
      as [| |[|]| | | |];
      try discriminate;
      unfold Conv.toString; cbn [Js.isNullish]; rewrite Ht; reflexivity.
  - intros s Hs. rewrite (parsePlot_tool _ _ _ H H0).
    rewrite (plotOfContent_array _ _ _ _ _ H1 H2).
    rewrite Hs. reflexivity.
  - intros extract answer r. apply parseAnswerWith_chart.
Qed.

Lemma parsePlotFromMessage_rule_witness :
  parsePlotFromMessage JSON_parse_samples
    (toolMessage (JStr (textOf (nth 1 sampleDocuments JNull))))
  = Ok (JStr "iVBORw0KGgo").
Proof.
  pose proof (parsePlotFromMessage_rule JSON_parse_samples
                (toolMessage (JStr (textOf (nth 1 sampleDocuments JNull)))))
    as Hrule.
  cbv zeta in Hrule. destruct Hrule as (_ & _ & _ & _ & Htool & _).
  destruct (Htool _ (nth 1 sampleDocuments JNull) eq_refl eq_refl eq_refl)
    as [_ Harr].
  destruct (Harr _ [] eq_refl) as (_ & _ & _ & _ & Hstr).
  exact (Hstr _ eq_refl).
Defined.

(** The specification has the chart field itself returned; for a field that
    is not a string the code returns its text. *)
Lemma parsePlotFromMessage_returns_text_of_number :
  JSON_parse_samples (textOf (nth 0 sampleDocuments JNull))
  = Some (JObj [("all_exec_results",
                 JArr [JObj [("code_exec_result", JNum 5)]] [])])
  /\ parsePlotFromMessage JSON_parse_samples
       (toolMessage (JStr (textOf (nth 0 sampleDocuments JNull))))
     = Ok (JStr "5")
  /\ parsePlotFromMessage JSON_parse_samples
       (toolMessage (JStr (textOf (nth 0 sampleDocuments JNull))))
     <> Ok (JNum 5).
Proof.
  repeat split; try reflexivity. intros H. vm_compute in H. discriminate.
Qed.

(** ** The loop over the inline markers *)

(** The digits of a marker, and the position in the pool they name. *)
Definition citationIndexOf (link : string) : string :=
  Str.slice lengthDocN (String.length link - 1) link.

Definition poolIndexOf (link : string) : Z :=
  Z.of_nat (Str.Number (citationIndexOf link)) - 1.

Definition poolOf (answer : JsVal) : JsVal := Js.optField answer "citations".

(** [answer.citations[Number(citationIndex) - 1]] *)
Definition entryOf (answer : JsVal) (link : string) : result JsVal :=
  Js.getIndex (poolOf answer) (poolIndexOf link).

(** A marker resolves when the pool has a truthy entry at its position. *)
Definition resolvesb (answer : JsVal) (link : string) : bool :=
  match entryOf answer link with
  | Ok e => Js.truthy e
  | Throw => false
  end.

(** The test of the callback on the citations kept so far. *)
Definition alreadyAdded (citationIndex : string) (kept : list JsVal) : bool :=
  existsb (fun c => Js.strictEqStr (Js.optField c "id") citationIndex) kept.

(** The citation pushed for [link] with display number [n]. *)
Definition inlineCitation (e : JsVal) (link : string) (n : nat) : JsVal :=
  assign (assign e "id" (JStr (citationIndexOf link)))
    "reindex_id" (JStr (Js.natToString n)).

Lemma setField_Ok (v : JsVal) (k : string) (x v' : JsVal) :
  Js.setField v k x = Ok v' -> Js.isObject v = true /\ v' = assign v k x.
Proof.
  destruct v; simpl; intros H; try discriminate; injection H as <-; auto.
Qed.

Lemma processLink_unfold (answer : JsVal) (st : LoopState) (link : string) :
  Js.isNullish answer = false ->
  processLink answer st link
  = e <- entryOf answer link ;;
    if negb (alreadyAdded (citationIndexOf link) (filteredCitations st))
       && Js.truthy e
    then
      c1 <- Js.setField e "id" (JStr (citationIndexOf link)) ;;
      c2 <- Js.setField c1 "reindex_id"
              (JStr (Js.natToString (S (citationReindex st)))) ;;
      Ok {| answerText :=
              Str.replaceAll link (placeholder (S (citationReindex st)))
                (answerText st);
            citationReindex := S (citationReindex st);
            filteredCitations := filteredCitations st ++ [c2] |}
    else Ok st.
Proof.
  intros Hn. unfold processLink. rewrite getField_object by assumption.
  reflexivity.
Qed.

(** What one call of the callback can do to the state. *)
Lemma processLink_cases (answer : JsVal) (st st' : LoopState) (link : string) :
  Js.isNullish answer = false ->
  processLink answer st link = Ok st' ->
  exists e,
    entryOf answer link = Ok e
    /\ ((alreadyAdded (citationIndexOf link) (filteredCitations st) = true
         \/ Js.truthy e = false) /\ st' = st
        \/ alreadyAdded (citationIndexOf link) (filteredCitations st) = false
           /\ Js.truthy e = true /\ Js.isObject e = true
           /\ st' = {| answerText :=
                         Str.replaceAll link
                           (placeholder (S (citationReindex st)))
                           (answerText st);
                       citationReindex := S (citationReindex st);
                       filteredCitations :=
                         filteredCitations st
                         ++ [inlineCitation e link (S (citationReindex st))] |}).
Proof.
  intros Hn H. rewrite processLink_unfold in H by assumption.
  apply bind_Ok in H. destruct H as (e & He & H). exists e.
  split; [assumption|].
  destruct (alreadyAdded (citationIndexOf link) (filteredCitations st)) eqn:Ea;
    simpl in H.
  - left. injection H as <-. auto.
  - destruct (Js.truthy e) eqn:Et.
    + right.
      apply bind_Ok in H. destruct H as (c1 & H1 & H).
      apply bind_Ok in H. destruct H as (c2 & H2 & H).
      apply setField_Ok in H1. destruct H1 as [Ho ->].
      apply setField_Ok in H2. destruct H2 as [_ ->].
      injection H as <-. auto.
    + left. injection H as <-. auto.
Qed.

(** Citations are only ever appended, and a marker that resolves leaves the
    list non-empty. *)
Lemma processLink_keeps (answer : JsVal) (st st' : LoopState) (link : string) :
  Js.isNullish answer = false ->
  processLink answer st link = Ok st' ->
  (filteredCitations st <> [] -> filteredCitations st' <> [])
  /\ (resolvesb answer link = true -> filteredCitations st' <> []).
Proof.
  intros Hn H.
  destruct (processLink_cases _ _ _ _ Hn H)
    as (e & He & [[Hskip ->] | (Ha & Ht & Ho & ->)]); simpl.
  - split; [auto|]. unfold resolvesb. rewrite He. intros Ht.
    destruct Hskip as [Hskip | Hf]; [|congruence].
    unfold alreadyAdded in Hskip.
    destruct (filteredCitations st); [discriminate | congruence].
  - split; intros _ E; apply app_eq_nil in E; destruct E; discriminate.
Qed.

Lemma inlineLoop_keeps (answer : JsVal) (links : list string) :
  Js.isNullish answer = false ->
  forall st st',
    foldM (processLink answer) links st = Ok st' ->
    (filteredCitations st <> [] -> filteredCitations st' <> [])
    /\ (existsb (resolvesb answer) links = true ->
        filteredCitations st' <> []).
Proof.
  intros Hn. induction links as [|l links IH]; intros st st' H; simpl in H.
  - injection H as <-. split; [auto | discriminate].
  - apply bind_Ok in H. destruct H as (st1 & H1 & H).
    destruct (processLink_keeps _ _ _ _ Hn H1) as [K1 K2].
    destruct (IH _ _ H) as [I1 I2].
    split; [auto|]. simpl. intros E. apply orb_true_iff in E.
    destruct E; auto.
Qed.

(** The loop in closed form. [resolved seen links] lists the markers for
    which the callback adds a citation: those that resolve and whose digits
    were not met before ([seen] holds the digits already used). *)
Definition entryVal (answer : JsVal) (link : string) : JsVal :=
  match entryOf answer link with
  | Ok e => e
  | Throw => JUndefined
  end.

Fixpoint resolved (answer : JsVal) (seen links : list string) : list string :=
  match links with
  | [] => []
  | l :: rest =>
      if negb (existsb (fun s => s =? citationIndexOf l) seen)
         && resolvesb answer l
      then l :: resolved answer (seen ++ [citationIndexOf l]) rest
      else resolved answer seen rest
  end.

Fixpoint citationsFor (answer : JsVal) (n : nat) (links : list string)
  : list JsVal :=
  match links with
  | [] => []
  | l :: rest =>
      inlineCitation (entryVal answer l) l n :: citationsFor answer (S n) rest
  end.

Fixpoint replaceSeq (n : nat) (links : list string) (text : string) : string :=
  match links with
  | [] => text
  | l :: rest => replaceSeq (S n) rest (Str.replaceAll l (placeholder n) text)
  end.

Definition idsOf (cs : list JsVal) : list JsVal :=
  map (fun c => Js.optField c "id") cs.

Lemma alreadyAdded_seen (idx : string) (kept : list JsVal) (seen : list string) :
  idsOf kept = map JStr seen ->
  alreadyAdded idx kept = existsb (fun s => s =? idx) seen.
Proof.
  revert seen. induction kept as [|c kept IH]; intros [|s seen] H;
    try discriminate; simpl in *.
  - reflexivity.
  - injection H as Hc Hk. rewrite Hc. simpl. f_equal. auto.
Qed.

Lemma inlineCitation_id (e : JsVal) (link : string) (n : nat) :
  Js.isObject e = true ->
  Js.optField (inlineCitation e link n) "id" = JStr (citationIndexOf link).
Proof.
  intros Ho. unfold inlineCitation.
  rewrite assign_other by discriminate. now apply assign_same.
Qed.

Lemma inlineCitation_reindex (e : JsVal) (link : string) (n : nat) :
  Js.isObject e = true ->
  Js.optField (inlineCitation e link n) "reindex_id" = JStr (Js.natToString n).
Proof.
  intros Ho. unfold inlineCitation. apply assign_same. auto with js.
Qed.

Lemma inlineCitation_other (e : JsVal) (link : string) (n : nat) (k : string) :
  k <> "id" -> k <> "reindex_id" ->
  Js.optField (inlineCitation e link n) k = Js.optField e k.
Proof.
  intros H1 H2. unfold inlineCitation.
  rewrite !assign_other by congruence. reflexivity.
Qed.

Lemma inlineCitation_object (e : JsVal) (link : string) (n : nat) :
  Js.isObject e = true -> Js.isObject (inlineCitation e link n) = true.
Proof. intros Ho. unfold inlineCitation. auto with js. Qed.

(** The state the loop ends in, when it ends without an exception. *)
Lemma inlineLoop_result (answer : JsVal) (links : list string) :
  Js.isNullish answer = false ->
  forall (st st' : LoopState) (seen : list string),
    idsOf (filteredCitations st) = map JStr seen ->
    foldM (processLink answer) links st = Ok st' ->
    st' = {| answerText :=
               replaceSeq (S (citationReindex st))
                 (resolved answer seen links) (answerText st);
             citationReindex :=
               citationReindex st + List.length (resolved answer seen links);
             filteredCitations :=
               filteredCitations st
               ++ citationsFor answer (S (citationReindex st))
                    (resolved answer seen links) |}.
Proof.
  intros Hn. induction links as [|l links IH]; intros st st' seen Hids H;
    simpl in H.
  - injection H as <-. simpl. rewrite Nat.add_0_r, app_nil_r.
    now destruct st.
  - apply bind_Ok in H. destruct H as (st1 & H1 & H).
    destruct (processLink_cases _ _ _ _ Hn H1)
      as (e & He & [[Hskip ->] | (Ha & Ht & Ho & ->)]).
    + simpl.
      rewrite (alreadyAdded_seen _ _ _ Hids) in Hskip.
      assert (Hc : negb (existsb (fun s => s =? citationIndexOf l) seen)
                   && resolvesb answer l = false).
      { unfold resolvesb. rewrite He.
        destruct Hskip as [-> | ->]; [reflexivity | apply andb_false_r]. }
      rewrite Hc. now apply IH.
    + simpl.
      rewrite (alreadyAdded_seen _ _ _ Hids) in Ha.
      assert (Hc : negb (existsb (fun s => s =? citationIndexOf l) seen)
                   && resolvesb answer l = true).
      { unfold resolvesb. rewrite He, Ha, Ht. reflexivity. }
      rewrite Hc.
      assert (Hids' :
        idsOf (filteredCitations st
               ++ [inlineCitation e l (S (citationReindex st))])
        = map JStr (seen ++ [citationIndexOf l])).
      { unfold idsOf in *. rewrite !map_app, Hids. simpl.
        now rewrite inlineCitation_id by assumption. }
      apply IH with (seen := (seen ++ [citationIndexOf l])%list) in H;
        [|exact Hids'].
      rewrite H. simpl. unfold entryVal. rewrite He.
      f_equal; [lia | now rewrite <- app_assoc].
Qed.

(** A marker is typed when the pool gives for it what the declared type of
    the pool allows: an object, or no entry. *)
Definition linkTyped (answer : JsVal) (link : string) : Prop :=
  exists e,
    entryOf answer link = Ok e
    /\ (Js.truthy e = true -> Js.isObject e = true).

Definition markersTyped (answer : JsVal) (text : string) : Prop :=
  Forall (linkTyped answer) (Str.scanLinks 0 text).

(** A pool that is an array of objects types every marker. *)
Lemma typed_array (answer : JsVal) (es : list JsVal) (text : string) :
  poolOf answer = JArr es [] ->
  Forall (fun e => Js.isObject e = true) es ->
  markersTyped answer text.
Proof.
  intros Hp Hall. apply Forall_forall. intros link _.
  unfold linkTyped, entryOf. rewrite Hp. simpl.
  destruct ((0 <=? poolIndexOf link)%Z
            && (poolIndexOf link <? Z.of_nat (List.length es))%Z) eqn:E.
  - eexists. split; [reflexivity|]. intros _.
    rewrite Forall_forall in Hall. apply Hall. apply nth_In.
    apply andb_true_iff in E. destruct E as [E1 E2].
    apply Z.leb_le in E1. apply Z.ltb_lt in E2. lia.
  - exists JUndefined. split; [reflexivity | discriminate].
Qed.

Lemma processLink_total (answer : JsVal) (st : LoopState) (link : string) :
  Js.isNullish answer = false -> linkTyped answer link ->
  exists st', processLink answer st link = Ok st'.
Proof.
  intros Hn (e & He & Hobj). rewrite processLink_unfold by assumption.
  rewrite He. simpl.
  destruct (negb (alreadyAdded (citationIndexOf link) (filteredCitations st))
            && Js.truthy e) eqn:E; [|eauto].
  apply andb_true_iff in E. destruct E as [_ E].
  rewrite setField_object by auto. simpl.
  rewrite setField_object by auto with js. simpl. eauto.
Qed.

Lemma inlineLoop_total (answer : JsVal) (links : list string) :
  Js.isNullish answer = false -> Forall (linkTyped answer) links ->
  forall st, exists st', foldM (processLink answer) links st = Ok st'.
Proof.
  intros Hn. induction 1 as [|l links Hl Hall IH]; intros st; simpl.
  - eauto.
  - destruct (processLink_total answer st l Hn Hl) as [st1 ->]. simpl.
    apply IH.
Qed.

(** ** First-seen order without repetition *)

(** The elements of [xs] not in [seen], each kept where it first occurs. *)
Fixpoint firstSeen (seen xs : list string) : list string :=
  match xs with
  | [] => []
  | x :: rest =>
      if existsb (fun s => s =? x) seen
      then firstSeen seen rest
      else x :: firstSeen (seen ++ [x]) rest
  end.

Lemma existsb_eqb_In (x : string) (seen : list string) :
  existsb (fun s => s =? x) seen = true <-> In x seen.
Proof.
  rewrite existsb_exists. split.
  - intros (s & Hin & E). apply String.eqb_eq in E. now subst.
  - intros Hin. exists x. split; [assumption | apply String.eqb_refl].
Qed.

Lemma firstSeen_In (xs : list string) :
  forall seen x, In x (firstSeen seen xs) <-> In x xs /\ ~ In x seen.
Proof.
  induction xs as [|y xs IH]; intros seen x; simpl.
  - tauto.
  - destruct (existsb (fun s => s =? y) seen) eqn:E.
    + apply existsb_eqb_In in E. rewrite IH. split.
      * tauto.
      * intros [[-> | H] Hn]; tauto.
    + assert (Hy : ~ In y seen).
      { intros H. apply existsb_eqb_In in H. congruence. }
      simpl. rewrite IH, in_app_iff. simpl. split.
      * intros [-> | [H Hn]]; tauto.
      * intros [[-> | H] Hn]; [tauto|].
        destruct (string_dec y x) as [-> | Hne]; tauto.
Qed.

Lemma firstSeen_NoDup (xs : list string) :
  forall seen, NoDup (firstSeen seen xs).
Proof.
  induction xs as [|y xs IH]; intros seen; simpl.
  - constructor.
  - destruct (existsb (fun s => s =? y) seen); [apply IH|].
    constructor; [|apply IH].
    rewrite firstSeen_In, in_app_iff. simpl. tauto.
Qed.

(** It has as many elements as [xs] has distinct ones. *)
Lemma firstSeen_length (xs : list string) :
  List.length (firstSeen [] xs) = List.length (nodup string_dec xs).
Proof.
  apply Nat.le_antisymm; apply NoDup_incl_length.
  - apply firstSeen_NoDup.
  - intros x H. apply firstSeen_In in H. apply nodup_In. tauto.
  - apply NoDup_nodup.
  - intros x H. apply nodup_In in H. apply firstSeen_In. tauto.
Qed.

(** Whether the pool has a truthy entry for the digits [idx]. *)
Definition resolvesIdx (answer : JsVal) (idx : string) : bool :=
  match Js.getIndex (poolOf answer) (Z.of_nat (Str.Number idx) - 1) with
  | Ok e => Js.truthy e
  | Throw => false
  end.

Lemma resolved_firstSeen (answer : JsVal) (links : list string) :
  forall seen,
    map citationIndexOf (resolved answer seen links)
    = firstSeen seen (filter (resolvesIdx answer) (map citationIndexOf links)).
Proof.
  induction links as [|l links IH]; intros seen; simpl.
  - reflexivity.
  - change (resolvesIdx answer (citationIndexOf l)) with (resolvesb answer l).
    destruct (resolvesb answer l) eqn:Er; simpl.
    + destruct (existsb (fun s => s =? citationIndexOf l) seen); simpl.
      * apply IH.
      * f_equal. apply IH.
    + rewrite andb_false_r. apply IH.
Qed.

Lemma resolved_sound (answer : JsVal) (links : list string) :
  forall seen,
    Forall (fun l => In l links /\ resolvesb answer l = true)
      (resolved answer seen links).
Proof.
  induction links as [|l links IH]; intros seen; simpl.
  - constructor.
  - destruct (negb (existsb (fun s => s =? citationIndexOf l) seen)
              && resolvesb answer l) eqn:E.
    + apply andb_true_iff in E. destruct E as [_ E].
      constructor; [auto|].
      eapply Forall_impl; [|apply IH]. simpl. intros a [H1 H2]. auto.
    + eapply Forall_impl; [|apply IH]. simpl. intros a [H1 H2]. auto.
Qed.

(** ** The citations built by the loop *)

Lemma citationsFor_length (answer : JsVal) (links : list string) :
  forall n, List.length (citationsFor answer n links) = List.length links.
Proof. induction links; intros n; simpl; auto. Qed.

Lemma citationsFor_fields (answer : JsVal) (links : list string) :
  Forall (fun l => Js.isObject (entryVal answer l) = true) links ->
  forall n,
    idsOf (citationsFor answer n links)
    = map JStr (map citationIndexOf links)
    /\ map (fun c => Js.optField c "reindex_id") (citationsFor answer n links)
       = map (fun k => JStr (Js.natToString k)) (seq n (List.length links))
    /\ Forall (fun c => Js.isObject c = true) (citationsFor answer n links).
Proof.
  unfold idsOf.
  induction 1 as [|l links Hl Hall IH]; intros n; simpl.
  - auto.
  - destruct (IH (S n)) as (I1 & I2 & I3).
    rewrite inlineCitation_id, inlineCitation_reindex by assumption.
    rewrite I1, I2.
    repeat split. constructor; [|assumption].
    now apply inlineCitation_object.
Qed.

(** When the loop ends normally, every entry it used is an object. *)
Lemma inlineLoop_objects (answer : JsVal) (links : list string) :
  Js.isNullish answer = false ->
  forall (st st' : LoopState) (seen : list string),
    idsOf (filteredCitations st) = map JStr seen ->
    foldM (processLink answer) links st = Ok st' ->
    Forall (fun l => Js.isObject (entryVal answer l) = true)
      (resolved answer seen links).
Proof.
  intros Hn. induction links as [|l links IH]; intros st st' seen Hids H;
    simpl in H.
  - constructor.
  - apply bind_Ok in H. destruct H as (st1 & H1 & H).
    destruct (processLink_cases _ _ _ _ Hn H1)
      as (e & He & [[Hskip ->] | (Ha & Ht & Ho & ->)]); simpl.
    + rewrite (alreadyAdded_seen _ _ _ Hids) in Hskip.
      assert (Hc : negb (existsb (fun s => s =? citationIndexOf l) seen)
                   && resolvesb answer l = false).
      { unfold resolvesb. rewrite He.
        destruct Hskip as [-> | ->]; [reflexivity | apply andb_false_r]. }
      rewrite Hc. eapply IH; eauto.
    + rewrite (alreadyAdded_seen _ _ _ Hids) in Ha.
      assert (Hc : negb (existsb (fun s => s =? citationIndexOf l) seen)
                   && resolvesb answer l = true).
      { unfold resolvesb. rewrite He, Ha, Ht. reflexivity. }
      rewrite Hc. constructor.
      * unfold entryVal. now rewrite He.
      * eapply IH; [|exact H]. simpl.
        unfold idsOf in *. rewrite !map_app, Hids. simpl.
        now rewrite inlineCitation_id by assumption.
Qed.

(** ** Re-indexing and enumeration leave the other fields alone *)

Lemma enumerateFrom_fields (k : string) :
  k <> "part_index" ->
  forall cs m out,
    enumerateFrom m cs = Ok out ->
    map (fun c => Js.optField c k) out = map (fun c => Js.optField c k) cs
    /\ List.length out = List.length cs
    /\ Forall (fun c => Js.isObject c = true) cs.
Proof.
  intros Hk. induction cs as [|c cs IH]; intros m out H; simpl in H.
  - injection H as <-. auto.
  - apply bind_Ok in H. destruct H as (fp & _ & H).
    apply bind_Ok in H. destruct H as (c' & Hc & H).
    apply bind_Ok in H. destruct H as (rest & Hr & H).
    injection H as <-. apply setField_Ok in Hc. destruct Hc as [Ho ->].
    destruct (IH _ _ Hr) as (I1 & I2 & I3). simpl.
    rewrite assign_other by congruence. rewrite I1, I2. auto.
Qed.

Lemma reindexFrom_Ok (cs : list JsVal) :
  forall idx out,
    reindexFrom idx cs = Ok out ->
    List.length out = List.length cs
    /\ map (fun c => Js.optField c "reindex_id") out
       = map (fun n => JStr (Js.natToString n)) (seq (S idx) (List.length cs))
    /\ (forall k, k <> "reindex_id" ->
          map (fun c => Js.optField c k) out
          = map (fun c => Js.optField c k) cs)
    /\ Forall (fun c => Js.isObject c = true) out.
Proof.
  induction cs as [|c cs IH]; intros idx out H; simpl in H.
  - injection H as <-. simpl. auto.
  - apply bind_Ok in H. destruct H as (c' & Hc & H).
    apply bind_Ok in H. destruct H as (rest & Hr & H).
    injection H as <-. apply setField_Ok in Hc. destruct Hc as [Ho ->].
    destruct (IH _ _ Hr) as (I1 & I2 & I3 & I4). simpl.
    rewrite assign_same by assumption. rewrite I1, I2, Nat.add_1_r.
    repeat split.
    + intros k Hk. rewrite assign_other by congruence. now rewrite I3.
    + constructor; auto with js.
Qed.

Lemma reindexFrom_total (cs : list JsVal) :
  Forall (fun c => Js.isObject c = true) cs ->
  forall idx, exists out, reindexFrom idx cs = Ok out.
Proof.
  induction 1 as [|c cs Hc Hcs IH]; intros idx; simpl.
  - eauto.
  - rewrite setField_object by assumption. simpl.
    destruct (IH (S idx)) as [out ->]. simpl. eauto.
Qed.

(** ** The resolver, step by step *)

Definition initState (text : string) : LoopState :=
  {| answerText := text; citationReindex := 0; filteredCitations := [] |}.

Lemma inlineCitations_fold (answer : JsVal) (text : string) :
  inlineCitations answer text
  = foldM (processLink answer) (Str.scanLinks 0 text) (initState text).
Proof.
  unfold inlineCitations, Str.matchDocLinks.
  destruct (Str.scanLinks 0 text); reflexivity.
Qed.

(** The citations handed to the enumeration: the inline ones if there are
    any, otherwise what the fallback extractor returns, re-indexed. *)
Definition selectCitations (extract : JsVal -> result (list JsVal))
  (answer : JsVal) (st : LoopState) : result (list JsVal) :=
  match filteredCitations st with
  | [] =>
      pfCitations <- extract answer ;;
      match pfCitations with
      | [] => Ok []
      | _ => reindexFrom 0 pfCitations
      end
  | kept => Ok kept
  end.

Lemma parseAnswerWith_unfold (extract : JsVal -> result (list JsVal))
  (answer : JsVal) (text : string) :
  Js.isNullish answer = false ->
  Js.optField answer "answer" = JStr text ->
  parseAnswerWith extract answer
  = st <- foldM (processLink answer) (Str.scanLinks 0 text) (initState text) ;;
    filtered <- selectCitations extract answer st ;;
    enumerated <- enumerateCitations filtered ;;
    Ok (Some {| citations := enumerated;
                markdownFormatText := answerText st;
                generated_chart := Js.optField answer "generated_chart" |}).
Proof.
  intros Hn Ha. unfold parseAnswerWith.
  rewrite !getField_object by assumption. simpl. rewrite Ha.
  rewrite inlineCitations_fold.
  destruct (foldM (processLink answer) (Str.scanLinks 0 text) (initState text))
    as [st|]; [|reflexivity].
  simpl. unfold selectCitations.
  destruct (filteredCitations st) as [|c kept]; simpl; [|reflexivity].
  destruct (extract answer) as [[|p pf]|]; reflexivity.
Qed.

Lemma parseAnswerWith_inv (extract : JsVal -> result (list JsVal))
  (answer : JsVal) (r : ParsedAnswer) :
  parseAnswerWith extract answer = Ok (Some r) ->
  exists text st filtered,
    Js.isNullish answer = false
    /\ Js.optField answer "answer" = JStr text
    /\ foldM (processLink answer) (Str.scanLinks 0 text) (initState text)
       = Ok st
    /\ selectCitations extract answer st = Ok filtered
    /\ enumerateCitations filtered = Ok (citations r)
    /\ markdownFormatText r = answerText st
    /\ generated_chart r = Js.optField answer "generated_chart".
Proof.
  intros H.
  assert (Hn : Js.isNullish answer = false).
  { unfold parseAnswerWith, Js.getField in H.
    destruct (Js.isNullish answer); [discriminate | reflexivity]. }
  destruct (Js.optField answer "answer") as [| | | |text| |] eqn:Ha;
    try (unfold parseAnswerWith in H;
         rewrite getField_object in H by assumption;
         simpl in H; rewrite Ha in H; discriminate).
  rewrite (parseAnswerWith_unfold _ _ _ Hn Ha) in H.
  apply bind_Ok in H. destruct H as (st & Hst & H).
  apply bind_Ok in H. destruct H as (filtered & Hf & H).
  apply bind_Ok in H. destruct H as (enumerated & He & H).
  injection H as <-. exists text, st, filtered. simpl. auto 10.
Qed.

(** ** Precedence of the inline markers *)

Lemma optField_string_not_nullish (v : JsVal) (k t : string) :
  Js.optField v k = JStr t -> Js.isNullish v = false.
Proof. destruct v; simpl; intros H; try discriminate; reflexivity. Qed.

Lemma enumerateFrom_elements (cs : list JsVal) :
  forall m out,
    enumerateFrom m cs = Ok out ->
    Forall2 (fun c c' => Js.isObject c = true
                         /\ exists p, c' = assign c "part_index" p) cs out.
Proof.
  induction cs as [|c cs IH]; intros m out H; simpl in H.
  - injection H as <-. constructor.
  - apply bind_Ok in H. destruct H as (fp & Hfp & H).
    apply bind_Ok in H. destruct H as (c' & Hc & H).
    apply bind_Ok in H. destruct H as (rest & Hr & H).
    injection H as <-. apply setField_Ok in Hc. destruct Hc as [Ho ->].
    constructor; eauto.
Qed.

Lemma citationsFor_In (answer : JsVal) (links : list string) (c : JsVal) :
  forall n,
    In c (citationsFor answer n links) ->
    exists l k, In l links /\ c = inlineCitation (entryVal answer l) l k.
Proof.
  induction links as [|l links IH]; intros n H; simpl in H.
  - contradiction.
  - destruct H as [<- | H].
    + exists l, n. simpl. auto.
    + destruct (IH _ H) as (l' & k & Hin & ->). exists l', k. simpl. auto.
Qed.

(** A citation of the result that comes from the pool entry of a marker of
    the text: its [id] is the digits of the marker, and apart from the three
    fields the resolver writes it is the entry. *)
Definition inlineDerived (answer : JsVal) (text : string) (c : JsVal) : Prop :=
  exists link e,
    In link (Str.scanLinks 0 text)
    /\ entryOf answer link = Ok e
    /\ Js.truthy e = true
    /\ Js.optField c "id" = JStr (citationIndexOf link)
    /\ forall k, k <> "id" -> k <> "reindex_id" -> k <> "part_index" ->
         Js.optField c k = Js.optField e k.

(** The citations the loop keeps for a text, from the empty state. *)
Definition inlineKept (answer : JsVal) (text : string) : list JsVal :=
  citationsFor answer 1 (resolved answer [] (Str.scanLinks 0 text)).

Lemma inlineLoop_from_init (answer : JsVal) (text : string) (st : LoopState) :
  Js.isNullish answer = false ->
  foldM (processLink answer) (Str.scanLinks 0 text) (initState text) = Ok st ->
  st = {| answerText :=
            replaceSeq 1 (resolved answer [] (Str.scanLinks 0 text)) text;
          citationReindex :=
            List.length (resolved answer [] (Str.scanLinks 0 text));
          filteredCitations := inlineKept answer text |}
  /\ Forall (fun l => Js.isObject (entryVal answer l) = true)
       (resolved answer [] (Str.scanLinks 0 text)).
Proof.
  intros Hn H. split.
  - now apply (inlineLoop_result answer _ Hn (initState text) st []) in H.
  - now apply (inlineLoop_objects answer _ Hn (initState text) st []) in H.
Qed.

Lemma inlineKept_derived (answer : JsVal) (text : string) :
  Forall (fun l => Js.isObject (entryVal answer l) = true)
    (resolved answer [] (Str.scanLinks 0 text)) ->
  forall c p,
    In c (inlineKept answer text) ->
    inlineDerived answer text (assign c "part_index" p).
Proof.
  intros Hobj c p Hin.
  destruct (citationsFor_In _ _ _ _ Hin) as (l & k & Hl & ->).
  pose proof (resolved_sound answer (Str.scanLinks 0 text) []) as Hs.
  rewrite Forall_forall in Hs, Hobj.
  destruct (Hs l Hl) as [Hlinks Hres]. specialize (Hobj l Hl).
  unfold resolvesb in Hres. unfold entryVal in *.
  destruct (entryOf answer l) as [e|] eqn:He; [|discriminate].
  exists l, e. repeat split; auto.
  - rewrite assign_other by discriminate. now apply inlineCitation_id.
  - intros key K1 K2 K3. rewrite assign_other by congruence.
    now apply inlineCitation_other.
Qed.

Lemma Forall2_In_right {A B : Type} (R : A -> B -> Prop)
  (l : list A) (l' : list B) (y : B) :
  Forall2 R l l' -> In y l' -> exists x, In x l /\ R x y.
Proof.
  induction 1 as [|x y' l l' Hxy Hl IH]; simpl; intros Hin.
  - contradiction.
  - destruct Hin as [<- | Hin]; [eauto|].
    destruct (IH Hin) as (x' & Hx' & HR). eauto.
Qed.

Lemma selectCitations_kept (extract : JsVal -> result (list JsVal))
  (answer : JsVal) (st : LoopState) :
  filteredCitations st <> [] ->
  selectCitations extract answer st = Ok (filteredCitations st).
Proof.
  unfold selectCitations. destruct (filteredCitations st); congruence.
Qed.

(** C1. When the answer text has a marker that resolves to an entry of the
    pool, the fallback extractor is not run: the outcome is the one obtained
    with an extractor that would throw if called, whatever tool-message
    citations the payload also carries. Every citation returned then comes
    from the pool entry of a marker, there is at least one, and when the
    pool has an object (or nothing) for every marker a result is indeed
    returned. *)
Theorem inline_markers_take_precedence
  (extract : JsVal -> result (list JsVal)) (answer : JsVal) (text : string) :
  Js.optField answer "answer" = JStr text ->
  existsb (resolvesb answer) (Str.scanLinks 0 text) = true ->
  parseAnswerWith extract answer = parseAnswerWith (fun _ => Throw) answer
  /\ (forall r,
        parseAnswerWith extract answer = Ok (Some r) ->
        citations r <> []
        /\ Forall (inlineDerived answer text) (citations r))
  /\ (markersTyped answer text ->
      exists r, parseAnswerWith extract answer = Ok (Some r)).
Proof.
  intros Ha Hres.
  pose proof (optField_string_not_nullish _ _ _ Ha) as Hn.
  assert (Hsel : forall e st,
    foldM (processLink answer) (Str.scanLinks 0 text) (initState text) = Ok st ->
    selectCitations e answer st = Ok (filteredCitations st)).
  { intros e st Hst. apply selectCitations_kept.
    now apply (inlineLoop_keeps answer _ Hn _ _ Hst). }
  repeat split.
  - rewrite !(parseAnswerWith_unfold _ _ _ Hn Ha).
    destruct (foldM (processLink answer) (Str.scanLinks 0 text)
                (initState text)) as [st|] eqn:Hst; [|reflexivity].
    simpl. now rewrite !Hsel.
  - apply parseAnswerWith_inv in H.
    destruct H as (text' & st & filtered & _ & Ha' & Hst & Hf & He & _).
    rewrite Ha in Ha'. injection Ha' as <-.
    rewrite (Hsel _ _ Hst) in Hf. injection Hf as <-.
    pose proof (proj2 (inlineLoop_keeps answer _ Hn _ _ Hst) Hres) as Hne.
    apply enumerateFrom_elements in He.
    inversion He; subst; congruence.
  - apply parseAnswerWith_inv in H.
    destruct H as (text' & st & filtered & _ & Ha' & Hst & Hf & He & _).
    rewrite Ha in Ha'. injection Ha' as <-.
    rewrite (Hsel _ _ Hst) in Hf. injection Hf as <-.
    destruct (inlineLoop_from_init _ _ _ Hn Hst) as [-> Hobj].
    simpl in He. apply enumerateFrom_elements in He.
    apply Forall_forall. intros c' Hc'.
    destruct (Forall2_In_right _ _ _ _ He Hc') as (c & Hc & _ & p & ->).
    now apply inlineKept_derived.
  - intros Ht. rewrite (parseAnswerWith_unfold _ _ _ Hn Ha).
    destruct (inlineLoop_total answer (Str.scanLinks 0 text) Hn Ht
                (initState text)) as [st Hst].
    rewrite Hst. simpl. rewrite (Hsel _ _ Hst). simpl.
    destruct (inlineLoop_from_init _ _ _ Hn Hst) as [-> Hobj]. simpl.
    destruct (enumerateCitations_spec (inlineKept answer text))
      as (out & -> & _).
    { apply citationsFor_fields. exact Hobj. }
    simpl. eauto.
Qed.

(** The mixed payload of the test-suite: an inline marker and a tool
    message with citations. *)
Definition sampleCitations : list JsVal :=
  [sampleCitation "doc1" "file1.pdf" JUndefined;
   sampleCitation "doc2" "file1.pdf" JUndefined;
   sampleCitation "doc3" "file2.pdf" JUndefined].

Definition assistantMessage (content : string) : JsVal :=
  JObj [("content", JStr content); ("role", JStr "assistant")].

Definition mixedResponse : JsVal :=
  JObj [("answer", JStr "This has inline citation [doc1].");
        ("citations", JArr sampleCitations []);
        ("generated_chart", JNull);
        ("choices",
          JArr [JObj [("messages",
                  JArr [assistantMessage "Answer text";
                        toolMessage
                          (JStr (textOf (nth 2 sampleDocuments JNull)))] [])]]
            [])].

Lemma inline_markers_take_precedence_witness :
  Structured.parseAnswer JSON_parse_samples mixedResponse
  = parseAnswerWith (fun _ => Throw) mixedResponse.
Proof.
  exact (proj1 (inline_markers_take_precedence
                  (Structured.extractPromptFlowCitations JSON_parse_samples)
                  mixedResponse "This has inline citation [doc1]."
                  eq_refl eq_refl)).
Defined.

Example mixedResponse_citations :
  exists c,
    Structured.parseAnswer JSON_parse_samples mixedResponse
    = Ok (Some {| citations := [c];
                  markdownFormatText := "This has inline citation  ^1^ .";
                  generated_chart := JNull |})
    /\ Js.optField c "id" = JStr "1"
    /\ Js.optField c "filepath" = JStr "file1.pdf"
    /\ Structured.extractPromptFlowCitations JSON_parse_samples mixedResponse
       = Ok [Structured.citationOf scenarioItem 0].
Proof. eexists. repeat split. Qed.

(** ** Payloads without inline citations *)

(** Every marker of the text finds the pool without an entry for it. *)
Definition noInlineCitation (answer : JsVal) (text : string) : Prop :=
  Forall (fun l => exists e, entryOf answer l = Ok e /\ Js.truthy e = false)
    (Str.scanLinks 0 text).

Lemma inlineLoop_unresolved (answer : JsVal) (links : list string) :
  Js.isNullish answer = false ->
  Forall (fun l => exists e, entryOf answer l = Ok e /\ Js.truthy e = false)
    links ->
  forall st, foldM (processLink answer) links st = Ok st.
Proof.
  intros Hn. induction 1 as [|l links (e & He & Ht) Hall IH]; intros st; simpl.
  - reflexivity.
  - rewrite processLink_unfold by assumption. rewrite He. simpl.
    rewrite Ht, andb_false_r. simpl. apply IH.
Qed.


(** ** What the fallback extractors return *)

Lemma flat_citationsFrom_objects (cits : list JsVal) :
  forall i, Forall (fun c => Js.isObject c = true) (Flat.citationsFrom i cits).
Proof.
  induction cits as [|pf cits IH]; intros i; simpl.
  - constructor.
  - destruct (Flat.hasPFKeys pf); [constructor|]; auto.
Qed.





(** *** The later revisions: what the walk collects, and when it throws *)

(** A value that a template literal can print. *)
Definition printable (v : JsVal) : bool :=
  match templateText v with
  | Ok _ => true
  | Throw => false
  end.

(** The log lines of an item print: its [docId], its [source], the
    filepath chosen for it and its [page]. *)
Definition itemLogs (pf : JsVal) : bool :=
  printable (Js.optField pf "docId")
  && printable (Js.optField pf "source")
  && printable (Js.coalesce (Js.optField pf "source")
                  (Js.coalesce (Js.optField pf "filepath") JNull))
  && printable (Js.optField pf "page").

(** The citations built from an array, each item with its position. *)
Definition structuredItems (i : nat) (cits : list JsVal) : list JsVal :=
  map (fun jp => Structured.citationOf (snd jp) (fst jp))
    (combine (seq i (List.length cits)) cits).

Lemma log_step {A : Type} (v : JsVal) (rest : result A) :
  bind (templateText v) (fun _ => rest)
  = if printable v then rest else Throw.
Proof. unfold printable. destruct (templateText v); reflexivity. Qed.

Lemma printable_coalesce (a b : JsVal) :
  printable a = true -> printable b = true ->
  printable (Js.coalesce a b) = true.
Proof. unfold Js.coalesce. destruct (Js.isNullish a); auto. Qed.

Lemma logCitation_cases (pf : JsVal) (i : nat) :
  Structured.logCitation pf (Structured.citationOf pf i)
  = if itemLogs pf then Ok tt else Throw.
Proof.
  unfold Structured.logCitation, itemLogs.
  change (Js.optField (Structured.citationOf pf i) "id")
    with (Js.coalesce (Js.optField pf "docId")
            (JStr (Js.natToString (i + 1)))).
  change (Js.optField (Structured.citationOf pf i) "filepath")
    with (Js.coalesce (Js.optField pf "source")
            (Js.coalesce (Js.optField pf "filepath") JNull)).
  change (Js.optField (Structured.citationOf pf i) "part_index")
    with (Js.coalesce (Js.optField pf "page") JUndefined).
  rewrite !log_step.
  destruct (printable (Js.optField pf "docId")) eqn:E1; [|reflexivity].
  rewrite (printable_coalesce _ (JStr (Js.natToString (i + 1))) E1 eq_refl).
  destruct (printable (Js.optField pf "source")); [|reflexivity].
  destruct (printable (Js.coalesce (Js.optField pf "source") _));
    [|reflexivity].
  destruct (printable (Js.optField pf "page")) eqn:E4; [|reflexivity].
  now rewrite (printable_coalesce _ JUndefined E4 eq_refl).
Qed.

Lemma structured_citationsFrom_cases (cits : list JsVal) :
  forall i,
    Structured.citationsFrom i cits
    = if forallb itemLogs cits then Ok (structuredItems i cits) else Throw.
Proof.
  unfold structuredItems.
  induction cits as [|pf cits IH]; intros i; [reflexivity|].
  cbn [Structured.citationsFrom forallb]. rewrite logCitation_cases.
  destruct (itemLogs pf); [|reflexivity].
  cbn [bind andb]. rewrite IH.
  destruct (forallb itemLogs cits); reflexivity.
Qed.


Lemma structuredItems_objects (cits : list JsVal) (i : nat) :
  Forall (fun c => Js.isObject c = true) (structuredItems i cits).
Proof.
  unfold structuredItems. apply Forall_forall. intros c Hc.
  apply in_map_iff in Hc. destruct Hc as (jp & <- & _). reflexivity.
Qed.

Section StructuredExtraction.

Variable JSON_parse : string -> option JsVal.

(** The [citations] array a message contributes: the one its content
    exposes when it is a tool message, none otherwise. *)
Definition citationArrayOf (msg : JsVal) : list JsVal :=
  if negb (Js.strictEqStr (Js.optField msg "role") "tool") then []
  else if Js.isNullish (Js.optField msg "content") then []
  else
    match
      match Js.optField msg "content" with
      | JStr text => JSON_parse text
      | content => Some content
      end
    with
    | None => []
    | Some contentObj =>
        match Js.optField contentObj "citations" with
        | JArr cits _ => cits
        | _ => []
        end
    end.

(** The messages met by the walk over the choices. *)
Definition walkedMessages (answer : JsVal) : list JsVal :=
  match Js.optField answer "choices" with
  | JArr choices _ =>
      flat_map (fun choice =>
                  match Js.optField choice "messages" with
                  | JArr messages _ => messages
                  | _ => []
                  end) choices
  | _ => []
  end.

(** The arrays met by the walk over the choices and their messages. *)
Definition toolCitationArrays (answer : JsVal) : list (list JsVal) :=
  map citationArrayOf (walkedMessages answer).

(** The log lines of a message print: the role of a message that is not a
    tool message, the items of the array of one that is. *)
Definition messageLogs (msg : JsVal) : bool :=
  (Js.strictEqStr (Js.optField msg "role") "tool"
   || printable (Js.optField msg "role"))
  && forallb itemLogs (citationArrayOf msg).

(** Every log line of the walk prints. *)
Definition structuredLogs (answer : JsVal) : bool :=
  forallb messageLogs (walkedMessages answer).

Lemma messageCitations_cases (msg : JsVal) :
  Structured.messageCitations JSON_parse msg
  = if messageLogs msg
    then Ok (structuredItems 0 (citationArrayOf msg))
    else Throw.
Proof.
  unfold Structured.messageCitations, messageLogs, citationArrayOf.
  destruct (Js.strictEqStr (Js.optField msg "role") "tool");
    cbn [negb orb andb].
  - destruct (Js.isNullish (Js.optField msg "content")); [reflexivity|].
    destruct (match Js.optField msg "content" with
              | JStr text => JSON_parse text
              | _ => _ end) as [obj|]; [|reflexivity].
    destruct (Js.optField obj "citations"); try reflexivity.
    apply structured_citationsFrom_cases.
  - rewrite log_step.
    destruct (printable (Js.optField msg "role")); reflexivity.
Qed.

Lemma concatM_cases {A B : Type} (f : A -> result (list B))
  (p : A -> bool) (g : A -> list B) (l : list A) :
  (forall a, f a = if p a then Ok (g a) else Throw) ->
  concatM f l = if forallb p l then Ok (flat_map g l) else Throw.
Proof.
  intros Hf. induction l as [|a l IH]; [reflexivity|].
  cbn [concatM forallb flat_map]. rewrite Hf.
  destruct (p a); [|reflexivity].
  cbn [bind andb]. rewrite IH. destruct (forallb p l); reflexivity.
Qed.


Lemma forallb_flat_map {A B : Type} (p : B -> bool) (f : A -> list B)
  (l : list A) :
  forallb p (flat_map f l) = forallb (fun a => forallb p (f a)) l.
Proof.
  induction l as [|a l IH]; [reflexivity|].
  simpl. now rewrite forallb_app, IH.
Qed.

Lemma flat_map_map_flat_map {A B C D : Type} (h : C -> list D) (k : B -> C)
  (f : A -> list B) (l : list A) :
  flat_map h (map k (flat_map f l))
  = flat_map (fun a => flat_map (fun b => h (k b)) (f a)) l.
Proof.
  induction l as [|a l IH]; [reflexivity|].
  simpl. rewrite map_app, flat_map_app, IH. f_equal.
  induction (f a) as [|b bs IHb]; [reflexivity|].
  simpl. now rewrite IHb.
Qed.

(** The walk in closed form: it throws when a log line does not print, and
    otherwise returns the citations of the arrays it met, in their order. *)
Lemma structured_extract_cases (answer : JsVal) :
  Structured.extractPromptFlowCitations JSON_parse answer
  = if structuredLogs answer
    then Ok (flat_map (structuredItems 0) (toolCitationArrays answer))
    else Throw.
Proof.
  unfold Structured.extractPromptFlowCitations, structuredLogs,
    toolCitationArrays, walkedMessages.
  destruct (Js.optField answer "choices") as [| | | | |choices ps|];
    try reflexivity.
  rewrite forallb_flat_map, flat_map_map_flat_map.
  apply concatM_cases. intros choice.
  unfold Structured.choiceCitations.
  destruct (Js.optField choice "messages") as [| | | | |messages qs|];
    try reflexivity.
  apply concatM_cases. apply messageCitations_cases.
Qed.

Lemma structured_extract_arrays (answer : JsVal) :
  structuredLogs answer = true ->
  Structured.extractPromptFlowCitations JSON_parse answer
  = Ok (flat_map (structuredItems 0) (toolCitationArrays answer)).
Proof. intros H. now rewrite structured_extract_cases, H. Qed.



Lemma structured_arrays_objects (arrays : list (list JsVal)) :
  Forall (fun c => Js.isObject c = true)
    (flat_map (structuredItems 0) arrays).
Proof.
  induction arrays as [|a arrays IH]; simpl; [constructor|].
  apply Forall_app. split; [apply structuredItems_objects | exact IH].
Qed.


End StructuredExtraction.








(** ** The invariant of the citation list *)


Lemma resolved_none (answer : JsVal) (links : list string) :
  existsb (resolvesb answer) links = false ->
  filter (resolvesIdx answer) (map citationIndexOf links) = [].
Proof.
  induction links as [|l links IH]; simpl; [reflexivity|].
  intros H. apply orb_false_iff in H. destruct H as [H1 H2].
  change (resolvesIdx answer (citationIndexOf l)) with (resolvesb answer l).
  rewrite H1. auto.
Qed.

(** The fields of the inline citations after enumeration. *)
Lemma inline_result_fields (answer : JsVal) (text : string)
  (out : list JsVal) :
  Forall (fun l => Js.isObject (entryVal answer l) = true)
    (resolved answer [] (Str.scanLinks 0 text)) ->
  enumerateCitations (inlineKept answer text) = Ok out ->
  let idxs := filter (resolvesIdx answer)
                (map citationIndexOf (Str.scanLinks 0 text)) in
  idsOf out = map JStr (firstSeen [] idxs)
  /\ map (fun c => Js.optField c "reindex_id") out
     = map (fun n => JStr (Js.natToString n)) (seq 1 (List.length out))
  /\ List.length out = List.length (nodup string_dec idxs).
Proof.
  intros Hobj Hout idxs.
  destruct (citationsFor_fields answer _ Hobj 1) as (F1 & F2 & _).
  fold (inlineKept answer text) in F1, F2.
  destruct (enumerateFrom_fields "id" ltac:(discriminate) _ _ _ Hout)
    as (E1 & E2 & _).
  destruct (enumerateFrom_fields "reindex_id" ltac:(discriminate) _ _ _ Hout)
    as (E3 & _ & _).
  assert (Hlen : List.length out
                 = List.length (resolved answer [] (Str.scanLinks 0 text))).
  { rewrite E2. apply citationsFor_length. }
  repeat split.
  - unfold idsOf in *. rewrite E1, F1. now rewrite resolved_firstSeen.
  - rewrite E3, F2. now rewrite Hlen.
  - rewrite Hlen, <- firstSeen_length.
    subst idxs. rewrite <- resolved_firstSeen. now rewrite length_map.
Qed.

(** The value [parseAnswer] returns, for a payload on which it returns
    one. *)
Definition returned (outcome : result (option ParsedAnswer)) : ParsedAnswer :=
  match outcome with
  | Ok (Some r) => r
  | _ => {| citations := []; markdownFormatText := "";
            generated_chart := JUndefined |}
  end.

Definition sampleAnswer : JsVal :=
  JObj [("answer",
          JStr "This is an example answer with citations [doc1] and [doc2].");
        ("citations", JArr sampleCitations []);
        ("generated_chart", JNull)].


(** Markers that differ by a leading zero are different markers: each gets
    a citation of its own, both cut from the same pool entry. *)
Example leading_zero_markers :
  exists c1 c2 t,
    Flat.parseAnswer
      (JObj [("answer", JStr "[doc1] and [doc01]");
             ("citations", JArr sampleCitations [])])
    = Ok (Some {| citations := [c1; c2]; markdownFormatText := t;
                  generated_chart := JUndefined |})
    /\ t = " ^1^  and  ^2^ "
    /\ Js.optField c1 "id" = JStr "1" /\ Js.optField c2 "id" = JStr "01"
    /\ Js.optField c1 "filepath" = Js.optField c2 "filepath".
Proof. do 3 eexists. repeat split. Qed.

(** ** Markers and the text between them *)

(** A marker is the text [[docN]] with one to three digits. *)
Fixpoint allDigits (s : string) : bool :=
  match s with
  | EmptyString => true
  | String c r => Str.isDigit c && allDigits r
  end.

Definition isMarker (l : string) : Prop :=
  exists ds, l = "[doc" ++ ds ++ "]" /\ allDigits ds = true
             /\ 1 <= String.length ds <= 3.

Ltac split_andb :=
  repeat match goal with
         | H : _ && _ = true |- _ => apply andb_true_iff in H; destruct H
         | H : (_ =? _)%char = true |- _ => apply Ascii.eqb_eq in H; subst
         end.

Lemma substring_zero (s : string) : substring 0 0 s = "".
Proof. destruct s; reflexivity. Qed.

Ltac found_marker ds rest :=
  let Hm := fresh "Hm" in
  intros Hm; simpl in Hm; rewrite ?substring_zero in Hm;
  injection Hm as <-; split;
  [ exists ds; simpl;
    repeat match goal with
           | Hd : Str.isDigit _ = true |- _ => rewrite Hd; clear Hd
           end;
    repeat split; auto
  | exists rest; reflexivity ].

Lemma matchDocAt_marker (s m : string) :
  Str.matchDocAt s = Some m -> isMarker m /\ exists rest, s = m ++ rest.
Proof.
  destruct s as [|c0 [|c1 [|c2 [|c3 [|d1 r]]]]]; try discriminate.
  unfold Str.matchDocAt.
  destruct ((c0 =? "[")%char && (c1 =? "d")%char && (c2 =? "o")%char
            && (c3 =? "c")%char && Str.isDigit d1) eqn:E; [|discriminate].
  split_andb.
  destruct r as [|d2 r]; [discriminate|].
  destruct r as [|d3 r].
  { destruct (d2 =? "]")%char eqn:E2; [|discriminate]. split_andb.
    found_marker (String d1 "") "". }
  destruct r as [|e r].
  { destruct (Str.isDigit d2 && (d3 =? "]")%char) eqn:E2.
    - split_andb. found_marker (String d1 (String d2 "")) "".
    - destruct (d2 =? "]")%char eqn:E3; [|discriminate]. split_andb.
      found_marker (String d1 "") (String d3 ""). }
  destruct (Str.isDigit d2 && Str.isDigit d3 && (e =? "]")%char) eqn:E1.
  { split_andb. found_marker (String d1 (String d2 (String d3 ""))) r. }
  destruct (Str.isDigit d2 && (d3 =? "]")%char) eqn:E2.
  { split_andb. found_marker (String d1 (String d2 "")) (String e r). }
  destruct (d2 =? "]")%char eqn:E3; [|discriminate]. split_andb.
  found_marker (String d1 "") (String d3 (String e r)).
Qed.

Lemma isDigit_not_bracket (c : ascii) :
  Str.isDigit c = true -> (c =? "]")%char = false.
Proof.
  intros H. destruct (c =? "]")%char eqn:E; [|reflexivity].
  apply Ascii.eqb_eq in E. subst. discriminate.
Qed.

Lemma marker_matchDocAt (m rest : string) :
  isMarker m -> Str.matchDocAt (m ++ rest) = Some m.
Proof.
  intros (ds & -> & Hd & Hlen).
  destruct ds as [|d1 [|d2 [|d3 [|d4 ds]]]]; simpl in Hlen; try lia;
    simpl in Hd; split_andb; simpl;
    repeat match goal with
           | Hd : Str.isDigit _ = true |- _ =>
               rewrite ?Hd; rewrite ?(isDigit_not_bracket _ Hd);
               revert Hd
           end; intros; simpl.
  - destruct rest as [|x [|y rest]]; rewrite ?substring_zero; reflexivity.
  - destruct rest as [|x rest]; simpl; rewrite ?andb_false_r, ?substring_zero;
      reflexivity.
  - now rewrite substring_zero.
Qed.

(** Appending and prefixes. *)
Lemma append_assoc (a b c : string) : (a ++ b) ++ c = a ++ (b ++ c).
Proof. induction a; simpl; congruence. Qed.

Lemma append_nil_r (a : string) : a ++ "" = a.
Proof. induction a; simpl; congruence. Qed.

Lemma length_append (a b : string) :
  String.length (a ++ b) = String.length a + String.length b.
Proof. induction a; simpl; auto. Qed.

Lemma prefix_nil (s : string) : prefix "" s = true.
Proof. now destruct s. Qed.

Lemma prefix_head (ch c : ascii) (u s : string) :
  (ch =? c)%char = false -> prefix (String ch u) (String c s) = false.
Proof.
  intros H. simpl. destruct (ascii_dec ch c) as [->|]; [|reflexivity].
  now rewrite Ascii.eqb_refl in H.
Qed.

Lemma prefix_append (u v : string) : prefix u (u ++ v) = true.
Proof.
  induction u as [|c u IH]; simpl.
  - now destruct v.
  - destruct (ascii_dec c c); [exact IH | contradiction].
Qed.

Lemma prefix_split (u s : string) :
  prefix u s = true -> exists v, s = u ++ v.
Proof.
  revert u. induction s as [|b s IH]; intros [|a u]; simpl; intros H;
    try discriminate; eauto.
  destruct (ascii_dec a b) as [->|]; [|discriminate].
  destruct (IH _ H) as [v ->]. eauto.
Qed.

Fixpoint dropS (k : nat) (s : string) : string :=
  match k, s with
  | S k', String _ s' => dropS k' s'
  | _, _ => s
  end.

Lemma dropS_append (u v : string) : dropS (String.length u) (u ++ v) = v.
Proof. induction u; simpl; auto. Qed.

(** A text cut into the markers the scan finds and the characters between
    them. *)
Inductive Token : Type :=
| Chr (c : ascii)
| Mark (l : string).

Fixpoint tokenize (skip : nat) (s : string) : list Token :=
  match s with
  | EmptyString => []
  | String c s' =>
      match skip with
      | S k => tokenize k s'
      | O =>
          match Str.matchDocAt s with
          | Some m => Mark m :: tokenize (String.length m - 1) s'
          | None => Chr c :: tokenize 0 s'
          end
      end
  end.

Definition tokenText (t : Token) : string :=
  match t with
  | Chr c => String c EmptyString
  | Mark l => l
  end.

Fixpoint render (ts : list Token) : string :=
  match ts with
  | [] => EmptyString
  | t :: rest => tokenText t ++ render rest
  end.

Definition marksOf (ts : list Token) : list string :=
  flat_map (fun t => match t with Mark l => [l] | Chr _ => [] end) ts.

Lemma scanLinks_tokens (s : string) :
  forall k, Str.scanLinks k s = marksOf (tokenize k s).
Proof.
  unfold marksOf.
  induction s as [|c s IH]; intros [|k];
    cbn [Str.scanLinks tokenize flat_map]; auto.
  destruct (Str.matchDocAt (String c s));
    cbn [flat_map app]; now rewrite IH.
Qed.

Lemma render_app (a b : list Token) : render (a ++ b) = render a ++ render b.
Proof. induction a; simpl; [reflexivity|]. now rewrite IHa, append_assoc. Qed.

Lemma marker_cons (m : string) :
  isMarker m -> exists m', m = String "[" m'.
Proof. intros (ds & -> & _). simpl. eauto. Qed.

Lemma match_cons (c : ascii) (s m : string) :
  Str.matchDocAt (String c s) = Some m ->
  exists m' rest,
    m = String c m' /\ s = m' ++ rest
    /\ String.length m - 1 = String.length m'.
Proof.
  intros E. destruct (matchDocAt_marker _ _ E) as [Hm [rest Hs]].
  destruct (marker_cons _ Hm) as [m' ->].
  simpl in Hs. injection Hs as -> ->.
  exists m', rest. simpl. rewrite Nat.sub_0_r. auto.
Qed.

Lemma render_tokenize (s : string) :
  forall k, render (tokenize k s) = dropS k s.
Proof.
  induction s as [|c s IH]; intros [|k];
    cbn [tokenize render dropS]; auto.
  destruct (Str.matchDocAt (String c s)) as [m|] eqn:E;
    cbn [render tokenText].
  - destruct (match_cons _ _ _ E) as (m' & rest & -> & -> & Hlen).
    rewrite Hlen, IH, dropS_append. reflexivity.
  - simpl. now rewrite IH.
Qed.

(** A token list is valid when every mark is a marker and the scan finds no
    marker at a character token. *)
Fixpoint valid (ts : list Token) : Prop :=
  match ts with
  | [] => True
  | Chr c :: rest => Str.matchDocAt (String c (render rest)) = None /\ valid rest
  | Mark m :: rest => isMarker m /\ valid rest
  end.

Lemma valid_tokenize (s : string) : forall k, valid (tokenize k s).
Proof.
  induction s as [|c s IH]; intros [|k]; cbn [tokenize valid]; auto.
  destruct (Str.matchDocAt (String c s)) as [m|] eqn:E; cbn [valid].
  - split; [|apply IH]. now destruct (matchDocAt_marker _ _ E).
  - split; [|apply IH]. rewrite render_tokenize. exact E.
Qed.

Definition chars (r : string) : list Token := map Chr (list_ascii_of_string r).

Lemma render_chars (r : string) (ts : list Token) :
  render (chars r ++ ts) = r ++ render ts.
Proof. unfold chars. induction r; simpl; congruence. Qed.

Definition substTok (l r : string) (t : Token) : list Token :=
  match t with
  | Mark m => if m =? l then chars r else [Mark m]
  | Chr c => [Chr c]
  end.

Fixpoint lacks (ch : ascii) (s : string) : bool :=
  match s with
  | EmptyString => true
  | String c r => negb (c =? ch)%char && lacks ch r
  end.

Lemma isDigit_lacks (c : ascii) :
  Str.isDigit c = true ->
  (c =? "[")%char = false /\ (c =? " ")%char = false.
Proof.
  intros H. split.
  - destruct (c =? "[")%char eqn:E; [|reflexivity].
    apply Ascii.eqb_eq in E. subst. discriminate.
  - destruct (c =? " ")%char eqn:E; [|reflexivity].
    apply Ascii.eqb_eq in E. subst. discriminate.
Qed.

Lemma marker_body (m : string) :
  isMarker m ->
  exists body,
    m = String "[" body /\ lacks "[" body = true /\ lacks " " body = true.
Proof.
  intros (ds & -> & Hd & Hlen).
  exists ("doc" ++ ds ++ "]"). split; [reflexivity|].
  destruct ds as [|d1 [|d2 [|d3 [|d4 ds]]]]; simpl in Hlen; try lia;
    simpl in Hd; split_andb;
    repeat match goal with
           | Hd : Str.isDigit _ = true |- _ =>
               destruct (isDigit_lacks _ Hd); clear Hd
           end;
    simpl;
    repeat match goal with
           | Hd : (_ =? _)%char = false |- _ => rewrite Hd; clear Hd
           end;
    split; reflexivity.
Qed.

Lemma matchDocAt_other (c : ascii) (s : string) :
  (c =? "[")%char = false -> Str.matchDocAt (String c s) = None.
Proof.
  intros H. unfold Str.matchDocAt.
  destruct s as [|c1 [|c2 [|c3 [|d1 r]]]]; try reflexivity.
  now rewrite H.
Qed.

Lemma prefix_marker_match (l s : string) :
  isMarker l -> prefix l s = true -> Str.matchDocAt s = Some l.
Proof.
  intros Hl Hp. destruct (prefix_split _ _ Hp) as [v ->].
  now apply marker_matchDocAt.
Qed.

Section Replace.

Variables l r : string.
Hypothesis Hl : isMarker l.

Lemma replaceFrom_skip (u x : string) :
  Str.replaceFrom (String.length u) l r (u ++ x) = Str.replaceFrom 0 l r x.
Proof. induction u; simpl; auto. Qed.

Lemma prefix_other (c : ascii) (s : string) :
  (c =? "[")%char = false -> prefix l (String c s) = false.
Proof.
  intros H. destruct (prefix l (String c s)) eqn:E; [|reflexivity].
  pose proof (prefix_marker_match _ _ Hl E) as M.
  rewrite matchDocAt_other in M by assumption. discriminate.
Qed.

Lemma replaceFrom_lacks (u x : string) :
  lacks "[" u = true ->
  Str.replaceFrom 0 l r (u ++ x) = u ++ Str.replaceFrom 0 l r x.
Proof.
  induction u as [|c u IH]; intros H; [reflexivity|].
  simpl in H. apply andb_true_iff in H. destruct H as [Hc Hu].
  apply negb_true_iff in Hc.
  change (String c u ++ x) with (String c (u ++ x)).
  cbn [Str.replaceFrom]. rewrite (prefix_other c _ Hc).
  rewrite IH by assumption. reflexivity.
Qed.

Lemma replace_tokens (ts : list Token) :
  valid ts ->
  Str.replaceFrom 0 l r (render ts) = render (flat_map (substTok l r) ts).
Proof.
  induction ts as [|[c|m] ts IH]; intros Hv.
  - reflexivity.
  - destruct Hv as [Hnone Hv]. cbn [render tokenText flat_map substTok].
    change (String c "" ++ render ts) with (String c (render ts)).
    cbn [Str.replaceFrom].
    destruct (prefix l (String c (render ts))) eqn:E.
    + rewrite (prefix_marker_match _ _ Hl E) in Hnone. discriminate.
    + simpl. now rewrite IH.
  - destruct Hv as [Hm Hv]. cbn [render tokenText flat_map substTok].
    destruct (marker_body _ Hm) as (body & -> & Hb & _).
    change (String "[" body ++ render ts) with (String "[" (body ++ render ts)).
    cbn [Str.replaceFrom].
    destruct (String "[" body =? l) eqn:E.
    + apply String.eqb_eq in E.
      replace (prefix l (String "[" (body ++ render ts))) with true
        by (rewrite <- E at 1; symmetry; apply (prefix_append (String "[" body))).
      replace (String.length l - 1) with (String.length body)
        by (rewrite <- E; simpl; lia).
      rewrite replaceFrom_skip, render_chars. now rewrite IH.
    + assert (Hp : prefix l (String "[" (body ++ render ts)) = false).
      { destruct (prefix l (String "[" (body ++ render ts))) eqn:Ep;
          [|reflexivity].
        pose proof (prefix_marker_match _ _ Hl Ep) as M1.
        change (String "[" (body ++ render ts))
          with (String "[" body ++ render ts) in M1.
        rewrite (marker_matchDocAt _ _ Hm) in M1. injection M1 as M1.
        apply String.eqb_neq in E. congruence. }
      rewrite Hp. rewrite replaceFrom_lacks by assumption.
      simpl. now rewrite IH.
Qed.

End Replace.

Section Substitution.

Variables l r' : string.
Hypothesis Hl : isMarker l.
Hypothesis Hr : lacks "[" r' = true.

(** The replacement text: a space, then characters other than the opening
    bracket. *)
Let r : string := String " " r'.

Lemma prefix_subst (ts : list Token) :
  valid ts ->
  forall u,
    lacks "[" u = true -> lacks " " u = true ->
    prefix u (render (flat_map (substTok l r) ts)) = prefix u (render ts).
Proof.
  induction ts as [|[c|m] ts IH]; intros Hv u Hu1 Hu2.
  - reflexivity.
  - destruct Hv as [_ Hv]. cbn [flat_map substTok app render tokenText].
    destruct u as [|ch u]; [now rewrite !prefix_nil|].
    simpl in Hu1, Hu2.
    apply andb_true_iff in Hu1. destruct Hu1 as [_ Hu1].
    apply andb_true_iff in Hu2. destruct Hu2 as [_ Hu2].
    simpl. destruct (ascii_dec ch c); [|reflexivity]. now apply IH.
  - destruct Hv as [Hm Hv]. cbn [flat_map substTok render tokenText].
    destruct u as [|ch u]; [now rewrite !prefix_nil|].
    simpl in Hu1, Hu2.
    apply andb_true_iff in Hu1. destruct Hu1 as [Hc1 _].
    apply andb_true_iff in Hu2. destruct Hu2 as [Hc2 _].
    apply negb_true_iff in Hc1. apply negb_true_iff in Hc2.
    destruct (marker_body _ Hm) as (body & -> & _).
    transitivity false.
    + destruct (String "[" body =? l).
      * rewrite render_chars. unfold r. now apply prefix_head.
      * now apply prefix_head.
    + symmetry. now apply prefix_head.
Qed.

Lemma valid_chars (s : string) (ts : list Token) :
  lacks "[" s = true -> valid ts -> valid (chars s ++ ts).
Proof.
  unfold chars. induction s as [|c s IH]; intros Hs Hv; [exact Hv|].
  simpl in Hs. apply andb_true_iff in Hs. destruct Hs as [Hc Hs].
  apply negb_true_iff in Hc. simpl. split; [|auto].
  now apply matchDocAt_other.
Qed.

Lemma valid_subst (ts : list Token) :
  valid ts -> valid (flat_map (substTok l r) ts).
Proof.
  induction ts as [|[c|m] ts IH]; intros Hv.
  - exact I.
  - destruct Hv as [Hnone Hv]. cbn [flat_map substTok app valid].
    split; [|auto].
    destruct (Str.matchDocAt
                (String c (render (flat_map (substTok l r) ts))))
      as [m|] eqn:E; [|reflexivity].
    destruct (match_cons _ _ _ E) as (m' & rest & -> & Hrest & _).
    destruct (matchDocAt_marker _ _ E) as [Hm _].
    destruct (marker_body _ Hm) as (body & Hb & Hb1 & Hb2).
    injection Hb as -> ->.
    assert (Hp : prefix body (render ts) = true).
    { rewrite <- (prefix_subst ts Hv body Hb1 Hb2), Hrest.
      apply prefix_append. }
    destruct (prefix_split _ _ Hp) as [v Hv'].
    rewrite Hv' in Hnone.
    change (String "[" (body ++ v)) with (String "[" body ++ v) in Hnone.
    rewrite (marker_matchDocAt _ _ Hm) in Hnone. discriminate.
  - destruct Hv as [Hm Hv]. cbn [flat_map substTok].
    destruct (m =? l).
    + apply valid_chars; [|auto]. unfold r. simpl. exact Hr.
    + simpl. auto.
Qed.

End Substitution.

(** The display numbers given to a list of markers, from [n] on. *)
Fixpoint numbering (n : nat) (links : list string) : list (string * nat) :=
  match links with
  | [] => []
  | l :: rest => (l, n) :: numbering (S n) rest
  end.

Fixpoint numberOf (m : string) (A : list (string * nat)) : option nat :=
  match A with
  | [] => None
  | (l, n) :: rest => if m =? l then Some n else numberOf m rest
  end.

Definition displayTok (A : list (string * nat)) (t : Token) : list Token :=
  match t with
  | Mark m =>
      match numberOf m A with
      | Some k => chars (placeholder k)
      | None => [Mark m]
      end
  | Chr c => [Chr c]
  end.

Lemma lacks_uint (u : Decimal.uint) :
  lacks "[" (DecimalString.NilEmpty.string_of_uint u) = true.
Proof. induction u; simpl; auto. Qed.

Lemma placeholder_shape (n : nat) :
  exists r', placeholder n = String " " r' /\ lacks "[" r' = true.
Proof.
  unfold placeholder. eexists. split; [reflexivity|].
  simpl. unfold Js.natToString, DecimalString.NilZero.string_of_uint.
  assert (H : forall s, lacks "[" s = true -> lacks "[" (s ++ "^ ") = true).
  { induction s; simpl; auto. intros H.
    apply andb_true_iff in H. destruct H as [-> H]. simpl. auto. }
  apply H. destruct (Nat.to_uint n); try reflexivity; apply lacks_uint.
Qed.

Lemma flat_map_chars (A : list (string * nat)) (s : string) :
  flat_map (displayTok A) (chars s) = chars s.
Proof. unfold chars. induction s; simpl; congruence. Qed.

Lemma replaceAll_marker (l r s : string) :
  isMarker l -> Str.replaceAll l r s = Str.replaceFrom 0 l r s.
Proof. intros (ds & -> & _). reflexivity. Qed.

Lemma flat_map_display_nil (ts : list Token) :
  flat_map (displayTok []) ts = ts.
Proof.
  induction ts as [|[c|m] ts IH]; simpl; [reflexivity| |]; now rewrite IH.
Qed.

Lemma flat_map_flat_map {A B C : Type} (f : A -> list B) (g : B -> list C)
  (l : list A) :
  flat_map g (flat_map f l) = flat_map (fun a => flat_map g (f a)) l.
Proof.
  induction l as [|a l IH]; simpl; [reflexivity|].
  now rewrite flat_map_app, IH.
Qed.

Lemma replaceSeq_tokens (links : list string) :
  Forall isMarker links ->
  forall n ts,
    valid ts ->
    replaceSeq n links (render ts)
    = render (flat_map (displayTok (numbering n links)) ts).
Proof.
  induction 1 as [|l links Hl Hall IH]; intros n ts Hv.
  - simpl. now rewrite flat_map_display_nil.
  - cbn [replaceSeq numbering].
    destruct (placeholder_shape n) as (r' & Hp & Hr').
    rewrite (replaceAll_marker _ _ _ Hl), Hp.
    rewrite (replace_tokens l _ Hl ts Hv).
    rewrite IH by (apply valid_subst; assumption).
    f_equal. rewrite flat_map_flat_map.
    apply flat_map_ext. intros [c|m]; simpl; [reflexivity|].
    destruct (m =? l) eqn:E.
    + rewrite <- Hp. apply flat_map_chars.
    + simpl. now rewrite app_nil_r.
Qed.

Lemma marker_index (m : string) :
  isMarker m -> m = "[doc" ++ citationIndexOf m ++ "]".
Proof.
  intros (ds & -> & _ & Hlen).
  destruct ds as [|d1 [|d2 [|d3 [|d4 ds]]]]; simpl in Hlen; try lia;
    reflexivity.
Qed.

Lemma marker_index_inj (l m : string) :
  isMarker l -> isMarker m -> citationIndexOf l = citationIndexOf m -> l = m.
Proof.
  intros Hl Hm E.
  rewrite (marker_index _ Hl), (marker_index _ Hm), E. reflexivity.
Qed.

Lemma valid_marks (ts : list Token) :
  valid ts -> Forall isMarker (marksOf ts).
Proof.
  induction ts as [|[c|m] ts IH]; simpl; intros Hv.
  - constructor.
  - apply IH, Hv.
  - constructor; [apply Hv | apply IH, Hv].
Qed.

Lemma scanLinks_markers (text : string) :
  Forall isMarker (Str.scanLinks 0 text).
Proof. rewrite scanLinks_tokens. apply valid_marks, valid_tokenize. Qed.

Lemma resolved_complete (answer : JsVal) (links : list string) (m : string) :
  Forall isMarker links ->
  In m links -> resolvesb answer m = true ->
  In m (resolved answer [] links).
Proof.
  intros Hmk Hin Hres.
  assert (Hidx : In (citationIndexOf m)
                   (map citationIndexOf (resolved answer [] links))).
  { rewrite resolved_firstSeen. apply firstSeen_In. split; [|tauto].
    apply filter_In. split; [now apply in_map | exact Hres]. }
  apply in_map_iff in Hidx. destruct Hidx as (l & El & Hl).
  pose proof (resolved_sound answer links []) as Hs.
  rewrite Forall_forall in Hs, Hmk.
  destruct (Hs l Hl) as [Hll _].
  now rewrite <- (marker_index_inj l m (Hmk l Hll) (Hmk m Hin) El).
Qed.

Lemma numberOf_numbering (links : list string) (m : string) :
  forall n,
    (In m links ->
     exists i, numberOf m (numbering n links) = Some (n + i)
               /\ nth_error links i = Some m)
    /\ (~ In m links -> numberOf m (numbering n links) = None).
Proof.
  induction links as [|l links IH]; intros n; simpl.
  - split; [contradiction | reflexivity].
  - destruct (m =? l) eqn:E.
    + apply String.eqb_eq in E. subst. split.
      * intros _. exists 0. rewrite Nat.add_0_r. auto.
      * intros H. exfalso. auto.
    + apply String.eqb_neq in E. destruct (IH (S n)) as [I1 I2]. split.
      * intros [-> | H]; [congruence|].
        destruct (I1 H) as (i & Hi & Hn). exists (S i).
        rewrite <- Nat.add_succ_comm. auto.
      * intros H. apply I2. tauto.
Qed.

(** ** The invariant of the citation list, and the indices the markers
    write *)















(** ** The text returned *)

(** The display numbers of a text: the markers that add a citation, numbered
    from 1 in the order of their first occurrence. *)
Definition displayNumbers (answer : JsVal) (text : string)
  : list (string * nat) :=
  numbering 1 (resolved answer [] (Str.scanLinks 0 text)).

Lemma resolved_markers (answer : JsVal) (text : string) :
  Forall isMarker (resolved answer [] (Str.scanLinks 0 text)).
Proof.
  pose proof (resolved_sound answer (Str.scanLinks 0 text) []) as Hs.
  pose proof (scanLinks_markers text) as Hm.
  rewrite Forall_forall in *. intros l Hl. apply Hm. now apply Hs.
Qed.

Lemma markdown_tokens (extract : JsVal -> result (list JsVal))
  (answer : JsVal) (r : ParsedAnswer) (text : string) :
  parseAnswerWith extract answer = Ok (Some r) ->
  Js.optField answer "answer" = JStr text ->
  markdownFormatText r
  = render (flat_map (displayTok (displayNumbers answer text))
              (tokenize 0 text)).
Proof.
  intros H Ha.
  destruct (parseAnswerWith_inv _ _ _ H)
    as (text' & st & filtered & Hn & Ha' & Hst & _ & _ & Hm & _).
  rewrite Ha in Ha'. injection Ha' as <-.
  destruct (inlineLoop_from_init _ _ _ Hn Hst) as [-> _].
  rewrite Hm. simpl. unfold displayNumbers.
  rewrite <- (replaceSeq_tokens _ (resolved_markers answer text) 1
                (tokenize 0 text) (valid_tokenize text 0)).
  now rewrite render_tokenize.
Qed.

(** The citation a resolving marker points to. *)
Lemma marker_citation (extract : JsVal -> result (list JsVal))
  (answer : JsVal) (r : ParsedAnswer) (text m : string) :
  parseAnswerWith extract answer = Ok (Some r) ->
  Js.optField answer "answer" = JStr text ->
  In m (Str.scanLinks 0 text) ->
  resolvesb answer m = true ->
  exists k c,
    numberOf m (displayNumbers answer text) = Some k
    /\ 1 <= k
    /\ nth_error (citations r) (k - 1) = Some c
    /\ Js.optField c "id" = JStr (citationIndexOf m)
    /\ Js.optField c "reindex_id" = JStr (Js.natToString k).
Proof.
  intros H Ha Hin Hres.
  destruct (parseAnswerWith_inv _ _ _ H)
    as (text' & st & filtered & Hn & Ha' & Hst & Hf & He & _).
  rewrite Ha in Ha'. injection Ha' as <-.
  pose proof (proj2 (inlineLoop_keeps answer _ Hn _ _ Hst)
                ltac:(apply existsb_exists; eauto)) as Hne.
  rewrite (selectCitations_kept _ _ _ Hne) in Hf. injection Hf as <-.
  destruct (inlineLoop_from_init _ _ _ Hn Hst) as [-> Hobj].
  simpl in He.
  pose proof (resolved_complete answer _ m (scanLinks_markers text) Hin Hres)
    as Hm.
  destruct (proj1 (numberOf_numbering _ m 1) Hm) as (i & Hnum & Hnth).
  destruct (inline_result_fields _ _ _ Hobj He) as (I1 & I2 & _).
  destruct (enumerateFrom_fields "id" ltac:(discriminate) _ _ _ He)
    as (_ & Hlen & _).
  unfold inlineKept in Hlen. rewrite citationsFor_length in Hlen.
  assert (Hi : i < List.length (citations r)).
  { rewrite Hlen. apply nth_error_Some. congruence. }
  destruct (nth_error (citations r) i) as [c|] eqn:Ec;
    [|apply nth_error_None in Ec; lia].
  exists (1 + i), c. unfold displayNumbers.
  replace (1 + i - 1) with i by lia.
  repeat split; auto; try lia.
  - assert (E : nth_error (idsOf (citations r)) i
                = Some (JStr (citationIndexOf m))).
    { rewrite I1, <- resolved_firstSeen, !nth_error_map, Hnth.
      reflexivity. }
    unfold idsOf in E. rewrite nth_error_map, Ec in E.
    cbn [option_map] in E. now injection E.
  - assert (E : nth_error
                  (map (fun c => Js.optField c "reindex_id") (citations r)) i
                = Some (JStr (Js.natToString (1 + i)))).
    { rewrite I2, nth_error_map.
      rewrite (nth_error_nth' _ 0) by (now rewrite length_seq).
      rewrite seq_nth by assumption. reflexivity. }
    rewrite nth_error_map, Ec in E.
    cbn [option_map] in E. now injection E.
Qed.

Lemma unresolved_marker_kept (answer : JsVal) (text m : string) :
  resolvesb answer m = false ->
  numberOf m (displayNumbers answer text) = None
  /\ ~ In (JStr (citationIndexOf m)) (idsOf (inlineKept answer text)).
Proof.
  intros Hres.
  pose proof (resolved_sound answer (Str.scanLinks 0 text) []) as Hs.
  rewrite Forall_forall in Hs. split.
  - apply (numberOf_numbering _ m 1). intros Hin.
    destruct (Hs m Hin). congruence.
  - unfold idsOf, inlineKept. intros Hin.
    apply in_map_iff in Hin. destruct Hin as (c & Hid & Hc).
    destruct (citationsFor_In _ _ _ _ Hc) as (l & k & Hl & ->).
    destruct (Hs l Hl) as [_ Hrl].
    unfold resolvesb in Hrl, Hres. unfold entryVal in Hid.
    unfold entryOf, poolIndexOf in *.
    destruct (Js.getIndex (poolOf answer)
                (Z.of_nat (Str.Number (citationIndexOf l)) - 1))
      as [e|] eqn:El; [|discriminate].
    unfold inlineCitation in Hid.
    rewrite assign_other in Hid by discriminate.
    destruct e; try discriminate; simpl in Hid;
      rewrite lookup_update_same in Hid; injection Hid as Hid;
      rewrite <- Hid, El in Hres; congruence.
Qed.

Definition scenarioAnswer : JsVal :=
  JObj [("answer", JStr "See [doc1] and [doc2].");
        ("citations",
          JArr [sampleCitation "doc1v" "f1.pdf" JUndefined;
                sampleCitation "doc2v" "f1.pdf" JUndefined] []);
        ("generated_chart", JNull)].

(** C6. The text returned is the answer text in which every occurrence of a
    marker that resolves is replaced by the placeholder of its display
    number (a space, a caret, the number, a caret, a space), the display
    numbers counting from 1 the resolving markers in the order of their
    first occurrence, and in which everything else, the markers that do not
    resolve included, stands as it was. The number shown for a marker is the
    [reindex_id] of the citation kept for it. For the text
    [See [doc1] and [doc2].] with a pool of two entries the result has the
    text [See  ^1^  and  ^2^ .] and two citations with part indices 1
    and 2. *)
Theorem markers_become_placeholders
  (extract : JsVal -> result (list JsVal)) (answer : JsVal)
  (r : ParsedAnswer) (text : string) :
  parseAnswerWith extract answer = Ok (Some r) ->
  Js.optField answer "answer" = JStr text ->
  render (tokenize 0 text) = text
  /\ marksOf (tokenize 0 text) = Str.scanLinks 0 text
  /\ markdownFormatText r
     = render (flat_map (displayTok (displayNumbers answer text))
                 (tokenize 0 text))
  /\ (forall m,
        In m (Str.scanLinks 0 text) -> resolvesb answer m = true ->
        exists k c,
          displayTok (displayNumbers answer text) (Mark m)
          = chars (" ^" ++ Js.natToString k ++ "^ ")
          /\ 1 <= k
          /\ nth_error (citations r) (k - 1) = Some c
          /\ Js.optField c "id" = JStr (citationIndexOf m)
          /\ Js.optField c "reindex_id" = JStr (Js.natToString k))
  /\ (forall m,
        resolvesb answer m = false ->
        displayTok (displayNumbers answer text) (Mark m) = [Mark m])
  /\ exists c1 c2,
       Flat.parseAnswer scenarioAnswer
       = Ok (Some {| citations := [c1; c2];
                     markdownFormatText := "See  ^1^  and  ^2^ .";
                     generated_chart := JNull |})
       /\ Js.optField c1 "part_index" = JNum 1
       /\ Js.optField c2 "part_index" = JNum 2.
Proof.
  intros H Ha. repeat split.
  - apply (render_tokenize text 0).
  - symmetry. apply scanLinks_tokens.
  - now apply markdown_tokens with (extract := extract).
  - intros m Hin Hres.
    destruct (marker_citation _ _ _ _ _ H Ha Hin Hres)
      as (k & c & Hk & K1 & K2 & K3 & K4).
    exists k, c. simpl. rewrite Hk. auto.
  - intros m Hres. simpl.
    now rewrite (proj1 (unresolved_marker_kept answer text m Hres)).
  - do 2 eexists. repeat split.
Qed.

Definition scenarioResult : ParsedAnswer :=
  Eval vm_compute in returned (Flat.parseAnswer scenarioAnswer).

Lemma markers_become_placeholders_witness :
  Flat.parseAnswer scenarioAnswer = Ok (Some scenarioResult)
  /\ markdownFormatText scenarioResult
     = render (flat_map (displayTok (displayNumbers scenarioAnswer
                                       "See [doc1] and [doc2]."))
                 (tokenize 0 "See [doc1] and [doc2].")).
Proof.
  split; [reflexivity|].
  exact (proj1 (proj2 (proj2
           (markers_become_placeholders Flat.extractPromptFlowCitations
              scenarioAnswer scenarioResult "See [doc1] and [doc2]."
              eq_refl eq_refl)))).
Defined.

Example scenario_tokens :
  flat_map (displayTok (displayNumbers scenarioAnswer "See [doc1] and [doc2]."))
    (tokenize 0 "See [doc1] and [doc2].")
  = (chars "See " ++ chars " ^1^ " ++ chars " and " ++ chars " ^2^ "
     ++ chars ".")%list.
Proof. reflexivity. Qed.

(** ** No exception escapes *)

Lemma parseAnswerWith_total (extract : JsVal -> result (list JsVal))
  (answer : JsVal) (text : string) (pf : list JsVal) :
  Js.optField answer "answer" = JStr text ->
  markersTyped answer text ->
  extract answer = Ok pf ->
  Forall (fun c => Js.isObject c = true) pf ->
  exists r, parseAnswerWith extract answer = Ok (Some r).
Proof.
  intros Ha Ht Hex Hobj.
  pose proof (optField_string_not_nullish _ _ _ Ha) as Hn.
  rewrite (parseAnswerWith_unfold _ _ _ Hn Ha).
  destruct (inlineLoop_total answer _ Hn Ht (initState text)) as [st Hst].
  rewrite Hst. simpl.
  destruct (inlineLoop_from_init _ _ _ Hn Hst) as [-> Hin].
  unfold selectCitations. simpl.
  pose proof (proj2 (proj2 (citationsFor_fields answer _ Hin 1))) as Hk.
  fold (inlineKept answer text) in Hk.
  destruct (inlineKept answer text) as [|c kept].
  - rewrite Hex. cbn [bind]. destruct pf as [|p pf]; cbn [bind].
    + simpl. eauto.
    + destruct (reindexFrom_total _ Hobj 0) as [re Hre]. rewrite Hre.
      destruct (reindexFrom_Ok _ _ _ Hre) as (_ & _ & _ & R4).
      destruct (enumerateCitations_spec re R4) as (out & Hout & _).
      cbn [bind]. rewrite Hout. simpl. eauto.
  - cbn [bind]. destruct (enumerateCitations_spec _ Hk) as (out & Hout & _).
    rewrite Hout. simpl. eauto.
Qed.

Lemma flat_extract_objects (answer : JsVal) :
  exists pf,
    Flat.extractPromptFlowCitations answer = Ok pf
    /\ Forall (fun c => Js.isObject c = true) pf.
Proof.
  unfold Flat.extractPromptFlowCitations.
  destruct (Js.optField answer "citations");
    eauto using flat_citationsFrom_objects.
Qed.

Lemma flat_total (answer : JsVal) (text : string) :
  Js.optField answer "answer" = JStr text ->
  markersTyped answer text ->
  exists r, Flat.parseAnswer answer = Ok (Some r).
Proof.
  intros Ha Ht. destruct (flat_extract_objects answer) as (pf & Hpf & Hobj).
  now apply parseAnswerWith_total with (text := text) (pf := pf).
Qed.

(** With a marker that resolves, the extractor has no part in the
    outcome. *)
Lemma parseAnswerWith_inline_any (e e' : JsVal -> result (list JsVal))
  (answer : JsVal) (text : string) :
  Js.optField answer "answer" = JStr text ->
  existsb (resolvesb answer) (Str.scanLinks 0 text) = true ->
  parseAnswerWith e answer = parseAnswerWith e' answer.
Proof.
  intros Ha Hres.
  pose proof (optField_string_not_nullish _ _ _ Ha) as Hn.
  rewrite !(parseAnswerWith_unfold _ _ _ Hn Ha).
  destruct (foldM (processLink answer) (Str.scanLinks 0 text)
              (initState text)) as [st|] eqn:Hst; [|reflexivity].
  cbn [bind].
  now rewrite !selectCitations_kept
    by now apply (inlineLoop_keeps answer _ Hn _ _ Hst).
Qed.

(** The later revisions return when the pool types the markers and either
    a marker resolves, so that the fallback is not run, or the log lines of
    the fallback print. *)
Lemma structured_total (JSON_parse : string -> option JsVal)
  (answer : JsVal) (text : string) :
  Js.optField answer "answer" = JStr text ->
  markersTyped answer text ->
  existsb (resolvesb answer) (Str.scanLinks 0 text) = true
  \/ structuredLogs JSON_parse answer = true ->
  exists r, Structured.parseAnswer JSON_parse answer = Ok (Some r).
Proof.
  intros Ha Ht [Hres | Hlogs].
  - unfold Structured.parseAnswer.
    rewrite (parseAnswerWith_inline_any _ (fun _ => Ok []) _ _ Ha Hres).
    now apply parseAnswerWith_total with (text := text) (pf := []).
  - apply parseAnswerWith_total
      with (text := text)
           (pf := flat_map (structuredItems 0)
                    (toolCitationArrays JSON_parse answer)); auto.
    + now apply structured_extract_arrays.
    + apply structured_arrays_objects.
Qed.



(** A typed payload with an unresolvable marker and a malformed tool
    message. *)
Definition malformedTool : JsVal :=
  JObj [("answer", JStr "See [doc7].");
        ("citations", JArr sampleCitations []);
        ("generated_chart", JNull);
        ("choices",
          JArr [JObj [("messages",
                  JArr [assistantMessage "See [doc7].";
                        toolMessage (JStr "{invalid json")] [])]] [])].




Example malformedTool_result :
  Structured.parseAnswer JSON_parse_samples malformedTool
  = Ok (Some {| citations := [];
                markdownFormatText := "See [doc7].";
                generated_chart := JNull |}).
Proof. reflexivity. Qed.


(** ** The chart of the result *)

Lemma lookup_absent (k : string) (fs : list (string * JsVal)) :
  (forall v, ~ In (k, v) fs) -> Js.lookup k fs = JUndefined.
Proof.
  induction fs as [|[k' v] fs IH]; simpl; intros H; [reflexivity|].
  destruct (k' =? k) eqn:E.
  - apply String.eqb_eq in E. subst. exfalso. apply (H v). auto.
  - apply IH. intros v' Hin. apply (H v'). auto.
Qed.

(** A payload whose chart sits in a tool message and that has no
    [generated_chart] field of its own. *)
Definition chartInToolMessage : JsVal :=
  JObj [("answer", JStr "Chart below.");
        ("citations", JArr [] []);
        ("choices",
          JArr [JObj [("messages",
                  JArr [toolMessage
                          (JStr (textOf (nth 1 sampleDocuments JNull)));
                        assistantMessage "Chart below."] [])]] [])].

(** A payload with a chart of its own and a marker in the text, but without
    the [citations] field. *)
Definition chartWithoutPool : JsVal :=
  JObj [("answer", JStr "Chart for [doc1].");
        ("generated_chart", JStr "iVBORw0KGgo")].

(** C10, as the code has it. For a payload whose answer text is a string,
    whenever [parseAnswer] returns, the chart of the result is the payload's
    own [generated_chart] field, [undefined] when the payload has none; the
    result is never [null]; and whatever sits under [choices] has no part in
    the chart. A result is returned whenever the pool gives an object or
    nothing for every marker and, in the later revisions, a marker resolves
    or the log lines of the fallback print. The caller may put under
    [generated_chart] what [parsePlotFromMessage] found: it is returned as
    it is. *)
Theorem generated_chart_is_the_payload_field
  (extract : JsVal -> result (list JsVal)) (answer : JsVal) (text : string) :
  Js.optField answer "answer" = JStr text ->
  (forall r,
     parseAnswerWith extract answer = Ok (Some r) ->
     generated_chart r = Js.optField answer "generated_chart")
  /\ parseAnswerWith extract answer <> Ok None
  /\ (markersTyped answer text ->
      forall JSON_parse,
        (exists r, Flat.parseAnswer answer = Ok (Some r)
                   /\ generated_chart r = Js.optField answer "generated_chart")
        /\ (existsb (resolvesb answer) (Str.scanLinks 0 text) = true
            \/ structuredLogs JSON_parse answer = true ->
            exists r, Structured.parseAnswer JSON_parse answer = Ok (Some r)
                      /\ generated_chart r
                         = Js.optField answer "generated_chart"))
  /\ (forall fs,
        answer = JObj fs ->
        (forall v, ~ In ("generated_chart", v) fs) ->
        Js.optField answer "generated_chart" = JUndefined)
  /\ (forall fs other choices r r',
        answer = JObj fs ->
        parseAnswerWith extract answer = Ok (Some r) ->
        parseAnswerWith other (JObj (Js.update "choices" choices fs))
        = Ok (Some r') ->
        generated_chart r' = generated_chart r).
Proof.
  intros Ha.
  pose proof (optField_string_not_nullish _ _ _ Ha) as Hn.
  split; [|split; [|split; [|split]]].
  - intros r. apply parseAnswerWith_chart.
  - rewrite (parseAnswerWith_unfold _ _ _ Hn Ha). intros H.
    apply bind_Ok in H. destruct H as (st & _ & H).
    apply bind_Ok in H. destruct H as (filtered & _ & H).
    apply bind_Ok in H. destruct H as (enumerated & _ & H).
    discriminate.
  - intros Ht JSON_parse. split.
    + destruct (flat_total answer text Ha Ht) as (r & Hr).
      exists r. split; [exact Hr|]. now apply parseAnswerWith_chart in Hr.
    + intros Hs.
      destruct (structured_total JSON_parse answer text Ha Ht Hs) as (r & Hr).
      exists r. split; [exact Hr|]. now apply parseAnswerWith_chart in Hr.
  - intros fs -> Habs. simpl. now apply lookup_absent.
  - intros fs other choices r r' -> Hr Hr'.
    apply parseAnswerWith_chart in Hr, Hr'. rewrite Hr, Hr'. simpl.
    apply lookup_update_other. discriminate.
Qed.

Definition chartInToolMessageResult : ParsedAnswer :=
  Eval vm_compute in
    returned (Structured.parseAnswer JSON_parse_samples chartInToolMessage).

Lemma generated_chart_is_the_payload_field_witness :
  Structured.parseAnswer JSON_parse_samples chartInToolMessage
  = Ok (Some chartInToolMessageResult)
  /\ generated_chart chartInToolMessageResult = JUndefined.
Proof.
  split; [reflexivity|].
  exact (proj1 (generated_chart_is_the_payload_field
                  (Structured.extractPromptFlowCitations JSON_parse_samples)
                  chartInToolMessage "Chart below." eq_refl)
           chartInToolMessageResult eq_refl).
Defined.

(** The specification has the chart returned for every payload whose answer
    text is a string; with a marker in the text and no pool the resolver
    throws before it reads the chart. *)
Lemma chart_not_returned_without_pool :
  Js.optField chartWithoutPool "answer" = JStr "Chart for [doc1]."
  /\ Js.optField chartWithoutPool "generated_chart" = JStr "iVBORw0KGgo"
  /\ Flat.parseAnswer chartWithoutPool = Throw
  /\ forall JSON_parse,
       Structured.parseAnswer JSON_parse chartWithoutPool = Throw.
Proof. repeat split. Qed.

Example chart_of_tool_message_not_used :
  parsePlotFromMessage JSON_parse_samples
    (toolMessage (JStr (textOf (nth 1 sampleDocuments JNull))))
  = Ok (JStr "iVBORw0KGgo")
  /\ exists cs,
       Structured.parseAnswer JSON_parse_samples chartInToolMessage
       = Ok (Some {| citations := cs;
                     markdownFormatText := "Chart below.";
                     generated_chart := JUndefined |}).
Proof. split; [reflexivity | eexists; reflexivity]. Qed.

(** * Further properties of the code *)

(** ** [enumerateCitations]: what a caller can rely on *)

Lemma update_update_same (k : string) (x : JsVal) (fs : list (string * JsVal)) :
  Js.update k x (Js.update k x fs) = Js.update k x fs.
Proof.
  induction fs as [|[k' v] fs IH]; simpl.
  - now rewrite String.eqb_refl.
  - destruct (k' =? k) eqn:E; simpl; rewrite E; [reflexivity|].
    now rewrite IH.
Qed.

Lemma assign_assign_same (v : JsVal) (k : string) (x : JsVal) :
  assign (assign v k x) k x = assign v k x.
Proof.
  destruct v; simpl; try reflexivity; now rewrite update_update_same.
Qed.

Lemma enumerateFrom_again (cs : list JsVal) :
  forall m out, enumerateFrom m cs = Ok out -> enumerateFrom m out = Ok out.
Proof.
  induction cs as [|c cs IH]; intros m out H; simpl in H.
  - now injection H as <-.
  - apply bind_Ok in H. destruct H as (fp & Hfp & H).
    apply bind_Ok in H. destruct H as (c' & Hc & H).
    apply bind_Ok in H. destruct H as (rest & Hr & H).
    injection H as <-. apply setField_Ok in Hc. destruct Hc as [Ho ->].
    rewrite getField_object in Hfp by auto with js. injection Hfp as <-.
    cbn [enumerateFrom].
    rewrite getField_object by auto with js. cbn [bind].
    rewrite assign_other by discriminate.
    rewrite setField_object by auto with js. cbn [bind].
    rewrite assign_assign_same, (IH _ _ Hr). reflexivity.
Qed.

(** X1. Enumerating an enumerated list changes nothing: the part indices
    only depend on the filepaths, which the enumeration leaves alone. *)
Theorem enumerateCitations_idempotent (cs out : list JsVal) :
  enumerateCitations cs = Ok out -> enumerateCitations out = Ok out.
Proof. apply enumerateFrom_again. Qed.

Definition sampleEnumerated : list JsVal :=
  Eval vm_compute in
    match enumerateCitations sampleCitations with
    | Ok out => out
    | Throw => []
    end.

Lemma enumerateCitations_idempotent_witness :
  enumerateCitations sampleCitations = Ok sampleEnumerated
  /\ enumerateCitations sampleEnumerated = Ok sampleEnumerated.
Proof.
  split; [reflexivity|].
  exact (enumerateCitations_idempotent sampleCitations sampleEnumerated
           eq_refl).
Defined.

Lemma sameFileBefore_cons (k c : JsVal) (cs : list JsVal) :
  sameFileBefore k (c :: cs)
  = if Js.sameValueZero (filepathOf c) k
    then S (sameFileBefore k cs) else sameFileBefore k cs.
Proof.
  unfold sameFileBefore. simpl.
  destruct (Js.sameValueZero (filepathOf c) k); reflexivity.
Qed.

Lemma enumerateFrom_file (k : JsVal) (cs : list JsVal) :
  forall m earlier out,
    mapCounts m earlier ->
    enumerateFrom m cs = Ok out ->
    map (fun c => Js.optField c "part_index")
      (filter (fun c => Js.sameValueZero (filepathOf c) k) out)
    = map (fun n => JNum (Z.of_nat n))
        (seq (S (sameFileBefore k earlier)) (sameFileBefore k cs)).
Proof.
  induction cs as [|c cs IH]; intros m earlier out Hm H; simpl in H.
  - now injection H as <-.
  - apply bind_Ok in H. destruct H as (fp & Hfp & H).
    apply bind_Ok in H. destruct H as (c' & Hc & H).
    apply bind_Ok in H. destruct H as (rest & Hr & H).
    injection H as <-. apply setField_Ok in Hc. destruct Hc as [Ho ->].
    rewrite getField_object in Hfp by auto with js. injection Hfp as <-.
    fold (filepathOf c) in *.
    assert (Hpart :
      match mapGet (filepathOf c) m with Some n => n + 1 | None => 1 end
      = S (sameFileBefore (filepathOf c) earlier)).
    { rewrite (Hm (filepathOf c)).
      destruct (sameFileBefore (filepathOf c) earlier); lia. }
    rewrite Hpart in *.
    pose proof (IH _ _ _ (mapCounts_step m earlier c Hm) Hr) as IHr.
    rewrite sameFileBefore_snoc in IHr.
    cbn [filter]. unfold filepathOf at 1.
    rewrite assign_other by discriminate. fold (filepathOf c).
    rewrite sameFileBefore_cons.
    destruct (Js.sameValueZero (filepathOf c) k) eqn:E.
    + cbn [map seq]. rewrite assign_same by assumption.
      apply sameValueZero_eq in E. rewrite E in *.
      rewrite IHr, Nat.add_1_r. reflexivity.
    + rewrite IHr, Nat.add_0_r. reflexivity.
Qed.

(** X2. After the enumeration, the citations of one file (one key of the
    map) carry the part indices 1, 2, ..., n in list order, n being their
    number: within a file no index is skipped or given twice. *)
Theorem enumerateCitations_file_numbering (cs out : list JsVal) (k : JsVal) :
  enumerateCitations cs = Ok out ->
  let parts :=
    filter (fun c => Js.sameValueZero (filepathOf c) k) out in
  map (fun c => Js.optField c "part_index") parts
  = map (fun n => JNum (Z.of_nat n)) (seq 1 (List.length parts))
  /\ List.length parts = sameFileBefore k cs.
Proof.
  intros H parts.
  pose proof (enumerateFrom_file k cs [] [] out mapCounts_empty H) as E.
  assert (L : List.length parts = sameFileBefore k cs).
  { apply (f_equal (@List.length JsVal)) in E.
    now rewrite !length_map, length_seq in E. }
  split; [|exact L]. subst parts. rewrite E, L. reflexivity.
Qed.

Lemma enumerateCitations_file_numbering_witness :
  map (fun c => Js.optField c "part_index")
    (filter (fun c => Js.sameValueZero (filepathOf c) (JStr "file1.pdf"))
       sampleEnumerated)
  = [JNum 1; JNum 2].
Proof.
  exact (proj1 (enumerateCitations_file_numbering sampleCitations
                  sampleEnumerated (JStr "file1.pdf") eq_refl)).
Defined.

Lemma enumerateFrom_Throw (cs : list JsVal) :
  forall m,
    Exists (fun c => Js.isObject c = false) cs -> enumerateFrom m cs = Throw.
Proof.
  induction cs as [|c cs IH]; intros m H.
  - inversion H.
  - cbn [enumerateFrom].
    destruct (Js.isObject c) eqn:Ho.
    + rewrite getField_object by auto with js. cbn [bind].
      rewrite setField_object by assumption. cbn [bind].
      rewrite IH; [reflexivity|].
      inversion H as [? ? Hc | ? ? Hcs]; subst; [congruence | assumption].
    + unfold Js.getField. destruct (Js.isNullish c); [reflexivity|].
      cbn [bind]. now rewrite setField_primitive.
Qed.

Lemma objects_or_not (cs : list JsVal) :
  Forall (fun c => Js.isObject c = true) cs
  \/ Exists (fun c => Js.isObject c = false) cs.
Proof.
  induction cs as [|c cs [IH | IH]]; auto.
  destruct (Js.isObject c) eqn:E; auto.
Qed.

(** X3. The enumeration fails exactly when the list holds something that is
    not an object (a [null], a string, a number): then a [TypeError]
    escapes and nothing is returned. A list of objects, the empty list
    included, is always enumerated, to a list of the same length. *)
Theorem enumerateCitations_fails_on_non_object (cs : list JsVal) :
  (Exists (fun c => Js.isObject c = false) cs <->
   enumerateCitations cs = Throw)
  /\ (Forall (fun c => Js.isObject c = true) cs <->
      exists out, enumerateCitations cs = Ok out
                  /\ List.length out = List.length cs).
Proof.
  assert (Hok : Forall (fun c => Js.isObject c = true) cs <->
                exists out, enumerateCitations cs = Ok out
                            /\ List.length out = List.length cs).
  { split.
    - intros H. destruct (enumerateCitations_spec cs H) as (out & H1 & H2 & _).
      eauto.
    - intros (out & H & _).
      now destruct (enumerateFrom_fields "id" ltac:(discriminate) _ _ _ H)
        as (_ & _ & Ho). }
  split; [|exact Hok]. split.
  - apply enumerateFrom_Throw.
  - intros Ht. destruct (objects_or_not cs) as [Hall | Hex]; [|exact Hex].
    apply Hok in Hall. destruct Hall as (out & Hout & _). congruence.
Qed.

Lemma enumerateFrom_app (a b : list JsVal) :
  forall m out,
    enumerateFrom m (a ++ b) = Ok out ->
    exists oa ob,
      out = (oa ++ ob)%list
      /\ enumerateFrom m a = Ok oa
      /\ List.length oa = List.length a.
Proof.
  induction a as [|c a IH]; intros m out H.
  - exists [], out. auto.
  - cbn [app enumerateFrom] in H.
    apply bind_Ok in H. destruct H as (fp & Hfp & H).
    apply bind_Ok in H. destruct H as (c' & Hc & H).
    apply bind_Ok in H. destruct H as (rest & Hr & H).
    injection H as <-.
    destruct (IH _ _ Hr) as (oa & ob & -> & Ha & Hlen).
    exists (c' :: oa), ob. cbn [enumerateFrom].
    rewrite Hfp. cbn [bind]. rewrite Hc. cbn [bind]. rewrite Ha.
    simpl. auto.
Qed.

(** X4. Citations appended to a list never renumber the earlier ones: the
    enumeration of a list begins with the enumeration of each of its
    prefixes. *)
Theorem enumerateCitations_prefix_stable (a b out : list JsVal) :
  enumerateCitations (a ++ b) = Ok out ->
  enumerateCitations a = Ok (firstn (List.length a) out).
Proof.
  intros H. destruct (enumerateFrom_app a b [] out H) as (oa & ob & -> & Ha & L).
  unfold enumerateCitations. rewrite Ha. f_equal.
  rewrite <- L, firstn_app, Nat.sub_diag, firstn_all. simpl.
  now rewrite app_nil_r.
Qed.

Lemma enumerateCitations_prefix_stable_witness :
  enumerateCitations (firstn 2 sampleCitations)
  = Ok (firstn 2 sampleEnumerated).
Proof.
  exact (enumerateCitations_prefix_stable (firstn 2 sampleCitations)
           (skipn 2 sampleCitations) sampleEnumerated eq_refl).
Defined.

Lemma enumerateCitations_fails_on_non_object_witness :
  enumerateCitations [sampleCitation "doc1" "file1.pdf" JUndefined; JNull]
  = Throw.
Proof.
  apply (proj1 (enumerateCitations_fails_on_non_object
                  [sampleCitation "doc1" "file1.pdf" JUndefined; JNull])).
  apply Exists_cons_tl. apply Exists_cons_hd. reflexivity.
Defined.

(** ** The marker pattern *)

(** X5. The pattern matches at the head of a text exactly when the text
    begins with [[doc], one to three digits and []]; the match is then that
    beginning. In particular four digits in a row do not match, since the
    bracket has to follow the third digit at the latest. *)
Theorem matchDocAt_exactly_markers (s m : string) :
  (Str.matchDocAt s = Some m <-> isMarker m /\ prefix m s = true)
  /\ (Str.matchDocAt s = None <-> forall l, isMarker l -> prefix l s = false)
  /\ (forall d1 d2 d3 d4 rest,
        Str.isDigit d2 = true -> Str.isDigit d3 = true ->
        Str.isDigit d4 = true ->
        Str.matchDocAt
          ("[doc" ++ String d1 (String d2 (String d3 (String d4 rest))))
        = None).
Proof.
  assert (Hsome : forall m', Str.matchDocAt s = Some m' <->
                             isMarker m' /\ prefix m' s = true).
  { intros m'. split.
    - intros H. destruct (matchDocAt_marker _ _ H) as [Hm [rest ->]].
      split; [exact Hm | apply prefix_append].
    - intros [Hm Hp]. now apply prefix_marker_match. }
  split; [apply Hsome|]. split.
  - split.
    + intros Hn l Hl. destruct (prefix l s) eqn:E; [|reflexivity].
      rewrite (prefix_marker_match _ _ Hl E) in Hn. discriminate.
    + intros Hall. destruct (Str.matchDocAt s) as [m'|] eqn:E; [|reflexivity].
      destruct (matchDocAt_marker _ _ E) as [Hm [rest Hs]].
      specialize (Hall _ Hm). rewrite Hs, prefix_append in Hall.
      discriminate.
  - intros d1 d2 d3 d4 rest H2 H3 H4.
    unfold Str.matchDocAt. cbn [append].
    rewrite (isDigit_not_bracket _ H2), (isDigit_not_bracket _ H3),
      (isDigit_not_bracket _ H4), !andb_false_r.
    destruct (_ && _); reflexivity.
Qed.

Lemma isDigit_value (c : ascii) :
  Str.isDigit c = true -> Str.digitVal c <= 9.
Proof.
  unfold Str.isDigit, Str.digitVal. intros H.
  apply andb_true_iff in H. destruct H as [H1 H2].
  apply Nat.leb_le in H1. apply Nat.leb_le in H2. lia.
Qed.

Lemma marker_number (m : string) :
  isMarker m -> Str.Number (citationIndexOf m) <= 999.
Proof.
  intros (ds & -> & Hd & Hlen).
  destruct ds as [|d1 [|d2 [|d3 [|d4 ds]]]]; simpl in Hlen; try lia;
    simpl in Hd; split_andb;
    repeat match goal with
           | Hd : Str.isDigit _ = true |- _ =>
               apply isDigit_value in Hd
           end;
    unfold citationIndexOf, Str.slice, Str.Number; simpl; lia.
Qed.

(** X6. A marker found in a text names, through its digits, a number from
    0 to 999. Against a pool that is an array it resolves only if that
    number is a position of the array counted from 1: [[doc0]] never
    resolves, nor does a marker beyond the length of the pool, and the
    entries from the thousandth on cannot be cited at all. *)
Theorem resolving_marker_in_bounds
  (answer : JsVal) (es : list JsVal) (text link : string) :
  poolOf answer = JArr es [] ->
  In link (Str.scanLinks 0 text) ->
  let n := Str.Number (citationIndexOf link) in
  n <= 999
  /\ (resolvesb answer link = true ->
      1 <= n <= List.length es
      /\ entryOf answer link = Ok (nth (n - 1) es JUndefined))
  /\ (n = 0 \/ List.length es < n -> resolvesb answer link = false).
Proof.
  intros Hp Hin n.
  assert (Hm : isMarker link).
  { pose proof (scanLinks_markers text) as H.
    rewrite Forall_forall in H. auto. }
  assert (Hcases :
    (1 <= n <= List.length es
     /\ entryOf answer link = Ok (nth (n - 1) es JUndefined))
    \/ ((n = 0 \/ List.length es < n) /\ resolvesb answer link = false)).
  { unfold resolvesb, entryOf, poolIndexOf. fold n. rewrite Hp. simpl.
    destruct ((0 <=? Z.of_nat n - 1)%Z
              && (Z.of_nat n - 1 <? Z.of_nat (List.length es))%Z) eqn:E.
    - left. apply andb_true_iff in E. destruct E as [E1 E2].
      apply Z.leb_le in E1. apply Z.ltb_lt in E2.
      split; [lia|]. do 2 f_equal. lia.
    - right. split; [|reflexivity].
      apply andb_false_iff in E. destruct E as [E | E].
      + apply Z.leb_gt in E. lia.
      + apply Z.ltb_ge in E. lia. }
  split; [now apply marker_number|]. split.
  - intros Hr. destruct Hcases as [H | [_ H]]; [exact H | congruence].
  - intros Hout. destruct Hcases as [[H _] | [_ H]]; [lia | exact H].
Qed.

Lemma resolving_marker_in_bounds_witness :
  resolvesb sampleAnswer "[doc2]" = true
  /\ entryOf sampleAnswer "[doc2]"
     = Ok (sampleCitation "doc2" "file1.pdf" JUndefined).
Proof.
  split; [reflexivity|].
  exact (proj2 (proj1 (proj2
           (resolving_marker_in_bounds sampleAnswer sampleCitations
              "This is an example answer with citations [doc1] and [doc2]."
              "[doc2]" eq_refl (or_intror (or_introl eq_refl))))
           eq_refl)).
Defined.

Lemma matchDocAt_exactly_markers_witness :
  Str.matchDocAt "[doc1234] and more" = None.
Proof.
  exact (proj2 (proj2 (matchDocAt_exactly_markers "" ""))
           "1"%char "2"%char "3"%char "4"%char "] and more"
           eq_refl eq_refl eq_refl).
Defined.

(** ** The markers left in the text returned *)

Lemma tokenize_skip (u x : string) :
  tokenize (String.length u) (u ++ x) = tokenize 0 x.
Proof. induction u; simpl; auto. Qed.

(** Cutting a text that was put together from valid tokens gives the tokens
    back. *)
Lemma tokenize_render (ts : list Token) :
  valid ts -> tokenize 0 (render ts) = ts.
Proof.
  induction ts as [|[c|m] ts IH]; intros Hv.
  - reflexivity.
  - destruct Hv as [Hnone Hv]. cbn [render tokenText].
    change (String c "" ++ render ts) with (String c (render ts)).
    cbn [tokenize]. rewrite Hnone. now rewrite IH.
  - destruct Hv as [Hm Hv]. cbn [render tokenText].
    pose proof (marker_matchDocAt m (render ts) Hm) as E.
    destruct (marker_cons _ Hm) as [m' ->].
    change (String "[" m' ++ render ts) with (String "[" (m' ++ render ts))
      in *.
    cbn [tokenize]. rewrite E.
    replace (String.length (String "[" m') - 1) with (String.length m')
      by (simpl; lia).
    now rewrite tokenize_skip, IH.
Qed.

Lemma display_cons (l : string) (n : nat) (A : list (string * nat))
  (ts : list Token) :
  flat_map (displayTok ((l, n) :: A)) ts
  = flat_map (displayTok A) (flat_map (substTok l (placeholder n)) ts).
Proof.
  rewrite flat_map_flat_map. apply flat_map_ext.
  intros [c|m]; simpl; [reflexivity|].
  destruct (m =? l).
  - symmetry. apply flat_map_chars.
  - simpl. now rewrite app_nil_r.
Qed.

Lemma display_valid (links : list string) :
  Forall isMarker links ->
  forall n ts,
    valid ts -> valid (flat_map (displayTok (numbering n links)) ts).
Proof.
  induction 1 as [|l links Hl Hall IH]; intros n ts Hv.
  - simpl. now rewrite flat_map_display_nil.
  - cbn [numbering]. rewrite display_cons.
    destruct (placeholder_shape n) as (r' & Hp & Hr').
    apply IH. rewrite Hp. now apply valid_subst.
Qed.

Lemma marksOf_app (a b : list Token) :
  marksOf (a ++ b) = (marksOf a ++ marksOf b)%list.
Proof. unfold marksOf. apply flat_map_app. Qed.

Lemma marksOf_chars (s : string) : marksOf (chars s) = [].
Proof. unfold chars, marksOf. induction s; simpl; auto. Qed.

Lemma marksOf_display (A : list (string * nat)) (ts : list Token) :
  marksOf (flat_map (displayTok A) ts)
  = filter (fun m => match numberOf m A with Some _ => false | None => true end)
      (marksOf ts).
Proof.
  induction ts as [|[c|m] ts IH]; cbn [flat_map displayTok].
  - reflexivity.
  - rewrite marksOf_app. simpl. exact IH.
  - rewrite marksOf_app, IH. simpl.
    destruct (numberOf m A); [now rewrite marksOf_chars | reflexivity].
Qed.

Lemma displayNumbers_unresolved (answer : JsVal) (text m : string) :
  In m (Str.scanLinks 0 text) ->
  match numberOf m (displayNumbers answer text) with
  | Some _ => false
  | None => true
  end = negb (resolvesb answer m).
Proof.
  intros Hin. destruct (resolvesb answer m) eqn:Hres.
  - pose proof (resolved_complete answer _ m (scanLinks_markers text) Hin Hres)
      as Hm.
    destruct (proj1 (numberOf_numbering _ m 1) Hm) as (i & Hi & _).
    unfold displayNumbers. now rewrite Hi.
  - now rewrite (proj1 (unresolved_marker_kept answer text m Hres)).
Qed.

(** The markers of a text that is the display of another. *)
Lemma rescan_display (answer : JsVal) (text : string) :
  Str.scanLinks 0
    (render (flat_map (displayTok (displayNumbers answer text))
               (tokenize 0 text)))
  = filter (fun m => negb (resolvesb answer m)) (Str.scanLinks 0 text).
Proof.
  rewrite scanLinks_tokens.
  rewrite tokenize_render
    by (apply display_valid;
        [apply resolved_markers | apply valid_tokenize]).
  rewrite marksOf_display, <- scanLinks_tokens.
  apply filter_ext_in. intros m Hin. now apply displayNumbers_unresolved.
Qed.

(** X7. Scanning the text returned for markers finds the markers of the
    answer text that did not resolve, as often and in the order they stood
    there, and nothing else: no resolving marker is left behind and the
    placeholders bring no marker in. *)
Theorem returned_text_keeps_unresolved_markers
  (extract : JsVal -> result (list JsVal)) (answer : JsVal)
  (r : ParsedAnswer) (text : string) :
  parseAnswerWith extract answer = Ok (Some r) ->
  Js.optField answer "answer" = JStr text ->
  Str.scanLinks 0 (markdownFormatText r)
  = filter (fun m => negb (resolvesb answer m)) (Str.scanLinks 0 text).
Proof.
  intros H Ha. rewrite (markdown_tokens _ _ _ _ H Ha).
  apply rescan_display.
Qed.

(** An answer with a marker that resolves, twice, and one that does not. *)
Definition mixedMarkers : JsVal :=
  JObj [("answer", JStr "A [doc2], B [doc9], again [doc2].");
        ("citations", JArr sampleCitations []);
        ("generated_chart", JNull)].

Definition mixedMarkersResult : ParsedAnswer :=
  Eval vm_compute in returned (Flat.parseAnswer mixedMarkers).

Lemma returned_text_keeps_unresolved_markers_witness :
  markdownFormatText mixedMarkersResult = "A  ^1^ , B [doc9], again  ^1^ ."
  /\ Str.scanLinks 0 (markdownFormatText mixedMarkersResult) = ["[doc9]"].
Proof.
  split; [reflexivity|].
  exact (returned_text_keeps_unresolved_markers
           Flat.extractPromptFlowCitations mixedMarkers mixedMarkersResult
           "A [doc2], B [doc9], again [doc2]." eq_refl eq_refl).
Defined.

(** ** What the resolver reads of the payload *)

Lemma foldM_ext {S A : Type} (f g : S -> A -> result S) (l : list A) :
  (forall s a, f s a = g s a) -> forall s, foldM f l s = foldM g l s.
Proof.
  intros E. induction l as [|a l IH]; intros s; simpl.
  - reflexivity.
  - rewrite E. destruct (g s a); simpl; auto.
Qed.

Lemma getField_agree (a b : JsVal) (k : string) :
  Js.isNullish a = Js.isNullish b ->
  Js.optField a k = Js.optField b k ->
  Js.getField a k = Js.getField b k.
Proof. intros Hn Hk. unfold Js.getField. now rewrite Hn, Hk. Qed.

Lemma processLink_agree (a b : JsVal) :
  Js.isNullish a = Js.isNullish b ->
  Js.optField a "citations" = Js.optField b "citations" ->
  forall st link, processLink a st link = processLink b st link.
Proof.
  intros Hn Hc st link. unfold processLink.
  now rewrite (getField_agree a b "citations" Hn Hc).
Qed.

Lemma parseAnswerWith_agree (extract : JsVal -> result (list JsVal))
  (a b : JsVal) :
  Js.isNullish a = Js.isNullish b ->
  Js.optField a "answer" = Js.optField b "answer" ->
  Js.optField a "citations" = Js.optField b "citations" ->
  Js.optField a "generated_chart" = Js.optField b "generated_chart" ->
  extract a = extract b ->
  parseAnswerWith extract a = parseAnswerWith extract b.
Proof.
  intros Hn Ha Hc Hg He. unfold parseAnswerWith.
  rewrite (getField_agree a b "answer" Hn Ha).
  rewrite (getField_agree a b "generated_chart" Hn Hg).
  destruct (Js.getField b "answer") as [[| | | |text| |]|]; try reflexivity.
  simpl. unfold inlineCitations. rewrite He.
  destruct (Str.matchDocLinks text) as [links|]; [|reflexivity].
  now rewrite (foldM_ext _ _ links (processLink_agree a b Hn Hc)).
Qed.

(** X8. The resolver reads three fields of its argument, [answer],
    [citations] and [generated_chart], and the later revisions [choices] in
    addition: two payloads that agree on them (and are both objects, or
    both not) are resolved alike, whatever else they carry, such as the
    message id, the feedback or the execution results. *)
Theorem parseAnswer_reads_only_its_fields (a b : JsVal) :
  Js.isNullish a = Js.isNullish b ->
  (forall k, In k ["answer"; "citations"; "generated_chart"] ->
     Js.optField a k = Js.optField b k) ->
  Flat.parseAnswer a = Flat.parseAnswer b
  /\ (forall JSON_parse,
        Js.optField a "choices" = Js.optField b "choices" ->
        Structured.parseAnswer JSON_parse a
        = Structured.parseAnswer JSON_parse b)
  /\ (forall extract,
        extract a = extract b ->
        parseAnswerWith extract a = parseAnswerWith extract b).
Proof.
  intros Hn Hk.
  assert (Ha := Hk "answer" ltac:(simpl; auto)).
  assert (Hc := Hk "citations" ltac:(simpl; auto)).
  assert (Hg := Hk "generated_chart" ltac:(simpl; auto)).
  repeat split.
  - apply parseAnswerWith_agree; auto.
    unfold Flat.extractPromptFlowCitations. now rewrite Hc.
  - intros JSON_parse Hch. apply parseAnswerWith_agree; auto.
    unfold Structured.extractPromptFlowCitations. now rewrite Hch.
  - intros extract He. now apply parseAnswerWith_agree.
Qed.

(** The sample answer as the chat page hands it over, with the fields the
    resolver has no use for. *)
Definition sampleAnswerWithFeedback : JsVal :=
  JObj [("message_id", JStr "m-42");
        ("answer", Js.optField sampleAnswer "answer");
        ("feedback", JStr "positive");
        ("citations", Js.optField sampleAnswer "citations");
        ("exec_results", JArr [JObj [("intent", JStr "search")]] []);
        ("generated_chart", Js.optField sampleAnswer "generated_chart")].

Lemma parseAnswer_reads_only_its_fields_witness :
  Flat.parseAnswer sampleAnswerWithFeedback = Flat.parseAnswer sampleAnswer.
Proof.
  refine (proj1 (parseAnswer_reads_only_its_fields sampleAnswerWithFeedback
                   sampleAnswer eq_refl _)).
  intros k [<- | [<- | [<- | []]]]; reflexivity.
Defined.

(** ** Resolving the returned text again *)

Lemma inlineLoop_entries (answer : JsVal) (links : list string) :
  Js.isNullish answer = false ->
  forall st st',
    foldM (processLink answer) links st = Ok st' ->
    Forall (fun l => exists e, entryOf answer l = Ok e) links.
Proof.
  intros Hn. induction links as [|l links IH]; intros st st' H; simpl in H.
  - constructor.
  - apply bind_Ok in H. destruct H as (st1 & H1 & H).
    destruct (processLink_cases _ _ _ _ Hn H1) as (e & He & _).
    constructor; eauto.
Qed.

(** The markers left in the returned text find no entry in the pool. *)
Lemma returned_text_unresolved (extract : JsVal -> result (list JsVal))
  (answer : JsVal) (r : ParsedAnswer) (text : string) :
  parseAnswerWith extract answer = Ok (Some r) ->
  Js.optField answer "answer" = JStr text ->
  Forall (fun l => exists e, entryOf answer l = Ok e /\ Js.truthy e = false)
    (Str.scanLinks 0 (markdownFormatText r)).
Proof.
  intros H Ha. rewrite (markdown_tokens _ _ _ _ H Ha), rescan_display.
  destruct (parseAnswerWith_inv _ _ _ H)
    as (text' & st & filtered & Hn & Ha' & Hst & _).
  rewrite Ha in Ha'. injection Ha' as <-.
  pose proof (inlineLoop_entries _ _ Hn _ _ Hst) as Hent.
  rewrite Forall_forall in *. intros l Hl.
  apply filter_In in Hl. destruct Hl as [Hin Hres].
  destruct (Hent l Hin) as [e He]. exists e. split; [assumption|].
  unfold resolvesb in Hres. rewrite He in Hres.
  now destruct (Js.truthy e).
Qed.

(** X9. The text returned is settled: resolving a payload that carries it
    as its answer, with the same pool, changes nothing in it and finds no
    inline citation, so that the citations of such a second pass can only
    be those of the fallback. *)
Theorem returned_text_is_settled
  (extract : JsVal -> result (list JsVal)) (answer : JsVal)
  (r : ParsedAnswer) (text : string) (again : JsVal) :
  parseAnswerWith extract answer = Ok (Some r) ->
  Js.optField answer "answer" = JStr text ->
  Js.optField again "answer" = JStr (markdownFormatText r) ->
  Js.optField again "citations" = Js.optField answer "citations" ->
  parseAnswerWith (fun _ => Ok []) again
  = Ok (Some {| citations := [];
                markdownFormatText := markdownFormatText r;
                generated_chart := Js.optField again "generated_chart" |})
  /\ forall extract' r',
       parseAnswerWith extract' again = Ok (Some r') ->
       markdownFormatText r' = markdownFormatText r
       /\ exists pf, extract' again = Ok pf
                     /\ List.length (citations r') = List.length pf.
Proof.
  intros H Ha Hagain Hpool.
  pose proof (optField_string_not_nullish _ _ _ Hagain) as Hn.
  assert (Hno : noInlineCitation again (markdownFormatText r)).
  { pose proof (returned_text_unresolved _ _ _ _ H Ha) as Hu.
    unfold noInlineCitation. rewrite Forall_forall in *.
    intros l Hl. destruct (Hu l Hl) as (e & He & Ht). exists e.
    split; [|assumption]. unfold entryOf, poolOf in *. now rewrite Hpool. }
  pose proof (inlineLoop_unresolved again _ Hn Hno) as Hloop.
  split.
  - rewrite (parseAnswerWith_unfold _ _ _ Hn Hagain), Hloop. reflexivity.
  - intros extract' r' H'.
    rewrite (parseAnswerWith_unfold _ _ _ Hn Hagain), Hloop in H'.
    simpl in H'. apply bind_Ok in H'. destruct H' as (filtered & Hf & H').
    apply bind_Ok in H'. destruct H' as (out & Hout & H').
    injection H' as <-. simpl. split; [reflexivity|].
    unfold selectCitations in Hf. simpl in Hf.
    apply bind_Ok in Hf. destruct Hf as (pf & Hpf & Hf).
    exists pf. split; [assumption|].
    apply enumerateFrom_elements, Forall2_length in Hout. rewrite <- Hout.
    destruct pf as [|p pf].
    + injection Hf as <-. reflexivity.
    + destruct (reindexFrom_Ok _ _ _ Hf) as (R1 & _). exact R1.
Qed.

Definition mixedMarkersAgain : JsVal :=
  JObj [("answer", JStr (markdownFormatText mixedMarkersResult));
        ("citations", JArr sampleCitations []);
        ("generated_chart", JNull)].

Lemma returned_text_is_settled_witness :
  parseAnswerWith (fun _ => Ok []) mixedMarkersAgain
  = Ok (Some {| citations := [];
                markdownFormatText := "A  ^1^ , B [doc9], again  ^1^ .";
                generated_chart := JNull |}).
Proof.
  exact (proj1 (returned_text_is_settled
                  Flat.extractPromptFlowCitations mixedMarkers
                  mixedMarkersResult "A [doc2], B [doc9], again [doc2]."
                  mixedMarkersAgain eq_refl eq_refl eq_refl eq_refl)).
Defined.

(** ** The chart, from the backend template to the image *)

(** The feature notes list [parsePlotFromMessage] a second time, with the
    guard [message?.role === "tool"] alone. *)
Module FeatureNotes.

Definition parsePlotFromMessage (JSON_parse : string -> option JsVal)
  (message : JsVal) : result JsVal :=
  if Js.strictEqStr (Js.optField message "role") "tool"
  then
    match Js.optField message "content" with
    | JStr content =>
        Conv.tryCatch (plotOfContent JSON_parse content) (Ok JNull)
    | _ => Ok JNull
    end
  else Ok JNull.

End FeatureNotes.

(** The response templates of the backend. [json.dumps] is a parameter;
    Python dictionaries, lists and strings are written as the JSON values
    they are sent as. *)
Section Templates.

Variable json_dumps : JsVal -> string.

(** The dictionary that [create_sql_response_with_chart] serialises. *)
Definition execResultsOf (chart_base64 : JsVal) : JsVal :=
  JObj [("all_exec_results",
         JArr [JObj [("intent", JStr "visualization");
                     ("code_exec_result", chart_base64)]] [])].

Definition create_sql_response_with_chart (answer_text chart_base64 : JsVal)
  : JsVal :=
  JObj [("choices",
         JArr [JObj [("messages",
                 JArr [JObj [("role", JStr "tool");
                             ("content",
                              JStr (json_dumps (execResultsOf chart_base64)))];
                       JObj [("role", JStr "assistant");
                             ("content", answer_text)]] [])]] [])].



End Templates.

(** [response.choices[0].messages] *)
Definition messagesOf (response : JsVal) : result JsVal :=
  choices <- Js.getField response "choices" ;;
  choice <- Js.getIndex choices 0 ;;
  Js.getField choice "messages".

(** The chat page and the answer component. [parseCitationFromMessage] is
    not among the listings and is a parameter. *)
Section AnswerComponent.

Variable JSON_parse : string -> option JsVal.
Variable parseCitationFromMessage : JsVal -> result JsVal.

(** The [answer] property handed to the component for the message [answer]
    at position [index] of [messages]. *)
Definition answerProps (messages answer : JsVal) (index : nat)
  (execResults : JsVal) : result JsVal :=
  content <- Js.getField answer "content" ;;
  previous <- Js.getIndex messages (Z.of_nat index - 1) ;;
  cits <- parseCitationFromMessage previous ;;
  chart <- parsePlotFromMessage JSON_parse previous ;;
  id <- Js.getField answer "id" ;;
  feedback <- Js.getField answer "feedback" ;;
  Ok (JObj [("answer", content);
            ("citations", cits);
            ("generated_chart", chart);
            ("message_id", id);
            ("feedback", feedback);
            ("exec_results", execResults)]).

End AnswerComponent.

(** The source of the image the component renders for the chart, [None]
    when it renders none: the test is [parsedAnswer?.generated_chart !==
    null]. *)
Definition chartImage (parsedAnswer : option ParsedAnswer)
  : result (option string) :=
  let chart :=
    match parsedAnswer with
    | Some r => generated_chart r
    | None => JUndefined
    end in
  match chart with
  | JNull => Ok None
  | _ => t <- templateText chart ;; Ok (Some ("data:image/png;base64, " ++ t))
  end.

Lemma parsePlotFromMessage_range (JSON_parse : string -> option JsVal)
  (message : JsVal) :
  exists v,
    parsePlotFromMessage JSON_parse message = Ok v
    /\ (v = JNull \/ exists s, v = JStr s).
Proof.
  unfold parsePlotFromMessage.
  destruct (Js.truthy (Js.optField message "role")
            && Js.strictEqStr (Js.optField message "role") "tool");
    [|exists JNull; auto].
  destruct (Js.optField message "content");
    try (exists JNull; auto; fail).
  apply plotOfContent_caught.
Qed.

(** X10. The two listings of [parsePlotFromMessage] compute the same on
    every message: the test [message?.role &&] of the longer guard never
    decides, a role that equals the text [tool] being truthy. *)
Theorem parsePlotFromMessage_listings_agree
  (JSON_parse : string -> option JsVal) (message : JsVal) :
  FeatureNotes.parsePlotFromMessage JSON_parse message
  = parsePlotFromMessage JSON_parse message
  /\ Js.truthy (Js.optField message "role")
     && Js.strictEqStr (Js.optField message "role") "tool"
     = Js.strictEqStr (Js.optField message "role") "tool".
Proof.
  assert (H : Js.truthy (Js.optField message "role")
              && Js.strictEqStr (Js.optField message "role") "tool"
              = Js.strictEqStr (Js.optField message "role") "tool").
  { destruct (Js.optField message "role") as [| |b|z|role|es ps|fs];
      cbn [Js.strictEqStr]; try apply andb_false_r.
    destruct (String.eqb_spec role "tool") as [-> | _];
      [reflexivity | apply andb_false_r]. }
  split; [|exact H].
  unfold FeatureNotes.parsePlotFromMessage, parsePlotFromMessage.
  now rewrite H.
Qed.

(** X11. The tool message that [create_sql_response_with_chart] builds is
    read back by [parsePlotFromMessage]: for the assistant message at
    position 1 of the response's messages, the message before it gives the
    chart text that the backend was given, and [null] when the backend was
    given none ([None] in Python). The assistant message itself gives
    [null], and the citation fallback of the later revisions finds nothing
    in such a response. The one assumption is that [JSON.parse] decodes what
    [json.dumps] wrote. *)
Theorem chart_template_read_back
  (JSON_parse : string -> option JsVal) (json_dumps : JsVal -> string)
  (answer_text chart_base64 : JsVal) :
  JSON_parse (json_dumps (execResultsOf chart_base64))
  = Some (execResultsOf chart_base64) ->
  let response :=
    create_sql_response_with_chart json_dumps answer_text chart_base64 in
  exists messages tool assistant,
    messagesOf response = Ok messages
    /\ Js.getIndex messages (1 - 1) = Ok tool
    /\ Js.getIndex messages 1 = Ok assistant
    /\ (forall s, chart_base64 = JStr s ->
          parsePlotFromMessage JSON_parse tool = Ok (JStr s))
    /\ (chart_base64 = JNull -> parsePlotFromMessage JSON_parse tool = Ok JNull)
    /\ parsePlotFromMessage JSON_parse assistant = Ok JNull
    /\ Structured.extractPromptFlowCitations JSON_parse response = Ok [].
Proof.
  intros Hrt response. subst response.
  do 3 eexists. split; [reflexivity|]. split; [reflexivity|].
  split; [reflexivity|].
  assert (Htool : forall chart,
    chart = chart_base64 ->
    parsePlotFromMessage JSON_parse
      (toolMessage (JStr (json_dumps (execResultsOf chart_base64))))
    = match chart with
      | JUndefined => Ok JNull
      | _ => Conv.tryCatch (Conv.toString chart) (Ok JNull)
      end).
  { intros chart ->.
    rewrite (parsePlot_tool JSON_parse
               (toolMessage (JStr (json_dumps (execResultsOf chart_base64))))
               _ eq_refl eq_refl).
    rewrite (plotOfContent_array JSON_parse _ _ _ _ Hrt eq_refl).
    simpl. destruct chart_base64; reflexivity. }
  repeat split.
  - intros s ->. exact (Htool _ eq_refl).
  - intros ->. exact (Htool _ eq_refl).
  - unfold Structured.extractPromptFlowCitations. simpl.
    unfold Structured.choiceCitations. simpl.
    unfold Structured.messageCitations. simpl. rewrite Hrt. reflexivity.
Qed.

(** A table that decodes the texts of the given documents and nothing
    else. *)
Definition parseAmong (docs : list JsVal) (text : string) : option JsVal :=
  find (fun v => textOf v =? text) docs.

Lemma chart_template_read_back_witness :
  parsePlotFromMessage (parseAmong [execResultsOf (JStr "iVBORw0KGgo")])
    (JObj [("role", JStr "tool");
           ("content", JStr (textOf (execResultsOf (JStr "iVBORw0KGgo"))))])
  = Ok (JStr "iVBORw0KGgo").
Proof.
  destruct (chart_template_read_back
              (parseAmong [execResultsOf (JStr "iVBORw0KGgo")]) textOf
              (JStr "Here is the chart.") (JStr "iVBORw0KGgo") eq_refl)
    as (messages & tool & assistant & Hm & Ht & _ & Hs & _).
  injection Hm as <-. injection Ht as <-. exact (Hs _ eq_refl).
Defined.




(** X13. What the answer component shows of the chart. The chat page puts
    under [generated_chart] what [parsePlotFromMessage] finds in the message
    before the answer, which is [null] or a text; the resolver hands it on;
    and the component renders an image exactly when it is a text, with the
    source [data:image/png;base64, ] followed by that text. When the page
    has an array of objects as citations and the content of the answer is a
    text, the resolver does return. The test of the component being
    [!== null], an answer that is not resolved (the resolver returned
    [null]) and a payload without the field both get an image, with the
    source ending in [undefined]. *)
Theorem chart_image_follows_tool_message
  (JSON_parse : string -> option JsVal)
  (parseCitationFromMessage : JsVal -> result JsVal)
  (messages answer : JsVal) (index : nat) (execResults : JsVal)
  (previous cits : JsVal) :
  Js.isNullish answer = false ->
  Js.getIndex messages (Z.of_nat index - 1) = Ok previous ->
  parseCitationFromMessage previous = Ok cits ->
  exists props chart,
    answerProps JSON_parse parseCitationFromMessage messages answer index
      execResults = Ok props
    /\ parsePlotFromMessage JSON_parse previous = Ok chart
    /\ Js.optField props "generated_chart" = chart
    /\ (forall extract r,
          parseAnswerWith extract props = Ok (Some r) ->
          generated_chart r = chart
          /\ (chart = JNull /\ chartImage (Some r) = Ok None
              \/ exists s,
                   chart = JStr s
                   /\ chartImage (Some r)
                      = Ok (Some ("data:image/png;base64, " ++ s))))
    /\ (forall text es,
          Js.optField answer "content" = JStr text ->
          cits = JArr es [] ->
          Forall (fun e => Js.isObject e = true) es ->
          (exists r, Flat.parseAnswer props = Ok (Some r))
          /\ exists r, Structured.parseAnswer JSON_parse props = Ok (Some r))
    /\ chartImage None = Ok (Some "data:image/png;base64, undefined")
    /\ (forall r,
          generated_chart r = JUndefined ->
          chartImage (Some r) = Ok (Some "data:image/png;base64, undefined")).
Proof.
  intros Hn Hprev Hcits.
  destruct (parsePlotFromMessage_range JSON_parse previous)
    as (chart & Hchart & Hrange).
  eexists. exists chart.
  split.
  { unfold answerProps. rewrite !getField_object by assumption.
    cbn [bind]. rewrite Hprev. cbn [bind]. rewrite Hcits. cbn [bind].
    rewrite Hchart. reflexivity. }
  split; [assumption|]. split; [reflexivity|].
  repeat split.
  - apply parseAnswerWith_chart in H. exact H.
  - apply parseAnswerWith_chart in H. simpl in H.
    unfold chartImage. rewrite H.
    destruct Hrange as [-> | [s ->]]; [left | right]; eauto.
  - apply flat_total with (text := text).
    + simpl. assumption.
    + apply typed_array with (es := es); [|assumption].
      subst cits. reflexivity.
  - apply (structured_total JSON_parse) with (text := text).
    + simpl. assumption.
    + apply typed_array with (es := es); [|assumption].
      subst cits. reflexivity.
    + right. reflexivity.
  - intros r Hr. unfold chartImage. now rewrite Hr.
Qed.

(** The messages of the chart response; the citation reader standing in for
    the page's finds no citations. *)
Definition chartAssistant : JsVal :=
  JObj [("role", JStr "assistant");
        ("content", JStr "Here is the chart.");
        ("id", JStr "m-1");
        ("feedback", JUndefined)].

Definition chartMessages : JsVal :=
  JArr [toolMessage (JStr (textOf (execResultsOf (JStr "iVBORw0KGgo"))));
        chartAssistant] [].

Definition chartProps : JsVal :=
  Eval vm_compute in
    match answerProps (parseAmong [execResultsOf (JStr "iVBORw0KGgo")])
            (fun _ => Ok (JArr [] [])) chartMessages chartAssistant 1 JNull
    with
    | Ok props => props
    | Throw => JUndefined
    end.

Definition chartPropsResult : ParsedAnswer :=
  Eval vm_compute in returned (Flat.parseAnswer chartProps).

Lemma chart_image_follows_tool_message_witness :
  Flat.parseAnswer chartProps = Ok (Some chartPropsResult)
  /\ chartImage (Some chartPropsResult)
     = Ok (Some "data:image/png;base64, iVBORw0KGgo").
Proof.
  split; [reflexivity|].
  destruct (chart_image_follows_tool_message
              (parseAmong [execResultsOf (JStr "iVBORw0KGgo")])
              (fun _ => Ok (JArr [] [])) chartMessages chartAssistant
              1 JNull _ (JArr [] []) eq_refl eq_refl eq_refl)
    as (props & chart & Hprops & Hchart & _ & Hshow & _).
  assert (Hp : props = chartProps)
    by (vm_compute in Hprops; injection Hprops as <-; reflexivity).
  subst props.
  destruct (Hshow Flat.extractPromptFlowCitations chartPropsResult eq_refl)
    as [_ [[Hnull _] | (s & Hs & Himg)]].
  - rewrite Hnull in Hchart. vm_compute in Hchart. discriminate.
  - rewrite Hs in Hchart. vm_compute in Hchart.
    injection Hchart as <-. exact Himg.
Defined.

(** ** The inline citations and the positions of the pool *)

Lemma entryOf_array (answer : JsVal) (es : list JsVal) (link : string)
  (e : JsVal) :
  poolOf answer = JArr es [] ->
  entryOf answer link = Ok e ->
  Js.truthy e = true ->
  1 <= Str.Number (citationIndexOf link) <= List.length es
  /\ e = nth (Str.Number (citationIndexOf link) - 1) es JUndefined.
Proof.
  intros Hp He Ht. unfold entryOf, poolIndexOf in He. rewrite Hp in He.
  simpl in He.
  destruct ((0 <=? Z.of_nat (Str.Number (citationIndexOf link)) - 1)%Z
            && (Z.of_nat (Str.Number (citationIndexOf link)) - 1
                <? Z.of_nat (List.length es))%Z) eqn:E.
  - apply andb_true_iff in E. destruct E as [E1 E2].
    apply Z.leb_le in E1. apply Z.ltb_lt in E2.
    injection He as <-. split; [lia|]. f_equal. lia.
  - injection He as <-. discriminate.
Qed.

(** X14. When a marker of the text resolves against a pool that is an
    array, every citation returned stands for a position of the pool: its
    [id] is a digit string of a marker of the text, the number it writes is
    a position from 1 to the length of the pool, and all its fields but
    [id], [reindex_id] and [part_index] are those of the entry at that
    position. *)
Theorem inline_citations_stand_for_pool_positions
  (extract : JsVal -> result (list JsVal)) (answer : JsVal)
  (es : list JsVal) (text : string) (r : ParsedAnswer) :
  Js.optField answer "answer" = JStr text ->
  poolOf answer = JArr es [] ->
  existsb (resolvesb answer) (Str.scanLinks 0 text) = true ->
  parseAnswerWith extract answer = Ok (Some r) ->
  Forall (fun c =>
            exists link,
              In link (Str.scanLinks 0 text)
              /\ Js.optField c "id" = JStr (citationIndexOf link)
              /\ 1 <= Str.Number (citationIndexOf link) <= List.length es
              /\ forall k,
                   k <> "id" -> k <> "reindex_id" -> k <> "part_index" ->
                   Js.optField c k
                   = Js.optField
                       (nth (Str.Number (citationIndexOf link) - 1) es
                          JUndefined) k)
    (citations r).
Proof.
  intros Ha Hp Hres H.
  pose proof (optField_string_not_nullish _ _ _ Ha) as Hn.
  apply parseAnswerWith_inv in H.
  destruct H as (text' & st & filtered & _ & Ha' & Hst & Hf & He & _).
  rewrite Ha in Ha'. injection Ha' as <-.
  rewrite selectCitations_kept in Hf
    by now apply (inlineLoop_keeps answer _ Hn _ _ Hst).
  injection Hf as <-.
  destruct (inlineLoop_from_init _ _ _ Hn Hst) as [-> Hobj].
  simpl in He. apply enumerateFrom_elements in He.
  apply Forall_forall. intros c' Hc'.
  destruct (Forall2_In_right _ _ _ _ He Hc') as (c & Hc & _ & p & ->).
  destruct (inlineKept_derived answer text Hobj c p Hc)
    as (link & e & Hin & Hent & Ht & Hid & Hother).
  destruct (entryOf_array _ _ _ _ Hp Hent Ht) as [Hbound ->].
  exists link. auto.
Qed.

Lemma inline_citations_stand_for_pool_positions_witness :
  Forall (fun c =>
            exists link,
              In link (Str.scanLinks 0 "A [doc2], B [doc9], again [doc2].")
              /\ Js.optField c "id" = JStr (citationIndexOf link)
              /\ 1 <= Str.Number (citationIndexOf link)
                 <= List.length sampleCitations
              /\ forall k,
                   k <> "id" -> k <> "reindex_id" -> k <> "part_index" ->
                   Js.optField c k
                   = Js.optField
                       (nth (Str.Number (citationIndexOf link) - 1)
                          sampleCitations JUndefined) k)
    (citations mixedMarkersResult).
Proof.
  exact (inline_citations_stand_for_pool_positions
           Flat.extractPromptFlowCitations mixedMarkers sampleCitations
           "A [doc2], B [doc9], again [doc2]." mixedMarkersResult
           eq_refl eq_refl eq_refl eq_refl).
Defined.
